(** * serverless-webpack: packager factory and artifact packaging

    A shallow embedding of [lib/packagers/index.js] (the packager factory,
    module [Packagers]) and of the packaging module that follows it in the
    source ([setArtifactPath], [serverlessZip], [zip], [getArtifactLocations],
    [copyArtifactByName], [setServiceArtifactPath], [isIndividualPackaging],
    [getArtifactName], [copyExistingArtifacts]; module [PackageModules]).
    [packageModules], which runs [zip] over the compiled units under
    [Promise.all], is not embedded.

    JavaScript effects are threaded through an explicit state-and-exception
    monad [M] over a [World] that holds the file system, the host's service
    object and the messages written to the loggers.  The library functions
    the source calls are modelled by their documented behaviour: [_.has] in
    module [Lodash], [path.join] in [Path], [semver.lt] in [Semver], and
    [fs], [glob.sync] and the directory walk of [archiver] in [Fs].
    Strings are sequences of 8-bit code units, paths are POSIX paths, the
    host's version is taken as parsed, and the exclusion pattern as the test
    it performs on a path. *)

From Stdlib Require Import Ascii String.
From stdpp Require Import base strings list gmap pretty.

Set Warnings "-register-all,-clear-no-such-hyp".

Local Open Scope stdpp_scope.
Local Open Scope list_scope.

(** ** JavaScript values, host objects and the effect monad *)

(** The JavaScript values that occur in the modelled code.  Functions and
    classes are objects: [JObject] lists the own properties, with the
    values a property read yields (accessors evaluated). *)
Inductive jsval :=
| JUndefined
| JBool (b : bool)
| JNum (n : N)
| JStr (s : string)
| JArray (items : list jsval)
| JObject (own : list (string * jsval)).

(** JavaScript truthiness ([ToBoolean]). *)
Definition truthy (v : jsval) : bool :=
  match v with
  | JUndefined => false
  | JBool b => b
  | JNum n => negb (N.eqb n 0)
  | JStr s => negb (String.eqb s "")
  | JArray _ | JObject _ => true
  end.

(** A plain configuration object such as [func.package] or
    [service.package]: own property name to value. *)
Abbreviation jsrecord := (gmap string jsval).

(** A function record of the host's service: the two fields the packaging
    module writes. *)
Record Func := mkFunc {
  func_artifact : option string;      (* func.artifact *)
  func_package : option jsrecord      (* func.package  *)
}.

(** [this.serverless.service], as far as the source reads or writes it. *)
Record Service := mkService {
  service_name : string;                 (* getServiceObject().name *)
  service_functions : gmap string Func;  (* service.functions *)
  service_package : option jsrecord      (* service.package *)
}.

(** Contents of a regular file: raw data, or a zip archive with its
    entries (name relative to the archived directory, contents); an archive
    is [finalized] once its central directory has been written and the
    stream closed. *)
Inductive content :=
| Data (bytes : string)
| Zip (finalized : bool) (entries : list (string * content)).

(** The file system: regular files by normalised path, in the order a
    directory walk enumerates them; the first binding of a path counts.
    Directories are implicit. *)
Abbreviation FS := (list (string * content)).

(** Messages, by the channel the source writes them to. *)
Inductive Event :=
| LogVerbose (msg : string)       (* this.log.verbose *)
| LogError (msg : string)         (* this.log.error *)
| ProgressNotice (msg : string)   (* this.progress.get('webpack').notice *)
| CliLog (msg : string)           (* this.serverless.cli.log *)
| ConsoleLog (msg : string).      (* console.log *)

(** Exceptions. *)
Inductive Error :=
| ServerlessError (msg : string)        (* new this.serverless.classes.Error(msg) *)
| FsError (code : string) (path : string)   (* a Node fs error, e.g. ENOENT *)
| ArchiverError (path : string)         (* 'error' event of the archive, rethrown *)
| OutOfFuel.                            (* a loop bound of the model was exceeded *)

(** The state the code runs in.  [w_unreadable] is the source of I/O
    failures in the model: the paths of files that exist and are listed but
    whose contents cannot be read. *)
Record World := mkWorld {
  w_fs : FS;
  w_unreadable : gset string;
  w_service : Service;
  w_out : list Event            (* messages emitted so far, oldest first *)
}.

Inductive Result (A : Type) :=
| Return (a : A)
| Throw (e : Error).
Arguments Return {A} a.
Arguments Throw {A} e.

Definition M (A : Type) : Type := World → Result A * World.

Definition ret {A} (a : A) : M A := λ w, (Return a, w).
Definition throw {A} (e : Error) : M A := λ w, (Throw e, w).
Definition bind {A B} (m : M A) (k : A → M B) : M B :=
  λ w, match m w with
       | (Return a, w') => k a w'
       | (Throw e, w') => (Throw e, w')
       end.

Declare Scope js_scope.
Delimit Scope js_scope with js.
Notation "'let*' x := m 'in' k" := (bind m (λ x, k))
  (at level 10, x pattern, m at level 100, k at level 200,
   format "'[v' 'let*'  x  :=  m  'in' '/' k ']'") : js_scope.
Notation "m >> k" := (bind m (λ _, k))
  (at level 100, k at level 200, right associativity) : js_scope.
Local Open Scope js_scope.

Definition emit (e : Event) : M unit :=
  λ w, (Return tt, mkWorld (w_fs w) (w_unreadable w) (w_service w) (w_out w ++ [e])).
Definition get_fs : M FS := λ w, (Return (w_fs w), w).
Definition put_fs (fs : FS) : M unit :=
  λ w, (Return tt, mkWorld fs (w_unreadable w) (w_service w) (w_out w)).
Definition get_service : M Service := λ w, (Return (w_service w), w).
Definition put_service (s : Service) : M unit :=
  λ w, (Return tt, mkWorld (w_fs w) (w_unreadable w) s (w_out w)).
Definition when (b : bool) (m : M unit) : M unit := if b then m else ret tt.

(** [_.forEach(list, body)] with a body that does not return [false]. *)
Fixpoint forEach {A} (l : list A) (body : A → M unit) : M unit :=
  match l with
  | [] => ret tt
  | x :: l' => body x >> forEach l' body
  end.

(** ** Library functions called by the source *)

Module Path.
(** Node's [path.posix]: [join] concatenates the non-empty arguments with
    [/] and normalises the result. *)

(** [s.split('/')]. *)
Fixpoint split (s : string) : list string :=
  match s with
  | "" => [""]
  | String c s' =>
      if Ascii.eqb c "/" then "" :: split s'
      else match split s' with
           | seg :: segs => String c seg :: segs
           | [] => [String c ""]
           end
  end.

Fixpoint unsplit (segs : list string) : string :=
  match segs with
  | [] => ""
  | [seg] => seg
  | seg :: segs' => seg +:+ "/" +:+ unsplit segs'
  end.

(** One segment of [normalizeString]; [stack] holds the segments kept so
    far, the last one first. *)
Definition normalize_step (allowAboveRoot : bool)
    (stack : list string) (seg : string) : list string :=
  if bool_decide (seg = "" ∨ seg = ".") then stack
  else if bool_decide (seg = "..") then
    match stack with
    | top :: below =>
        if bool_decide (top = "..")
        then (if allowAboveRoot then ".." :: stack else stack)
        else below
    | [] => if allowAboveRoot then [".."] else []
    end
  else seg :: stack.

Definition normalizeString (path : string) (allowAboveRoot : bool) : string :=
  unsplit (reverse (foldl (normalize_step allowAboveRoot) [] (split path))).

Definition starts_with_slash (s : string) : bool :=
  match s with String c _ => Ascii.eqb c "/" | "" => false end.

Fixpoint ends_with_slash (s : string) : bool :=
  match s with
  | "" => false
  | String c "" => Ascii.eqb c "/"
  | String _ s' => ends_with_slash s'
  end.

Definition normalize (path : string) : string :=
  if bool_decide (path = "") then "."
  else
    let isAbsolute := starts_with_slash path in
    let trailingSeparator := ends_with_slash path in
    let p := normalizeString path (negb isAbsolute) in
    if bool_decide (p = "") then
      (if isAbsolute then "/" else if trailingSeparator then "./" else ".")
    else
      let p := if trailingSeparator then p +:+ "/" else p in
      if isAbsolute then "/" +:+ p else p.

Definition join (args : list string) : string :=
  match filter (λ a, a ≠ "") args with
  | [] => "."
  | parts => normalize (unsplit parts)
  end.
End Path.

Module Semver.
(** The [semver] package: a parsed version and its precedence order. *)
Inductive identifier :=
| NumId (n : N)
| AlphaId (s : string).

Record SemVer := mkSemVer {
  major : N;
  minor : N;
  patch : N;
  prerelease : list identifier
}.

Definition compareIdentifiers (a b : identifier) : comparison :=
  match a, b with
  | NumId x, NumId y => N.compare x y
  | NumId _, AlphaId _ => Lt
  | AlphaId _, NumId _ => Gt
  | AlphaId x, AlphaId y =>
      if String.eqb x y then Eq else if String.ltb x y then Lt else Gt
  end.

Definition compareMain (a b : SemVer) : comparison :=
  match N.compare (major a) (major b) with
  | Eq => match N.compare (minor a) (minor b) with
          | Eq => N.compare (patch a) (patch b)
          | c => c
          end
  | c => c
  end.

Fixpoint comparePreLoop (a b : list identifier) : comparison :=
  match a, b with
  | [], [] => Eq
  | _ :: _, [] => Gt
  | [], _ :: _ => Lt
  | x :: a', y :: b' =>
      match compareIdentifiers x y with
      | Eq => comparePreLoop a' b'
      | c => c
      end
  end.

Definition comparePre (a b : SemVer) : comparison :=
  match prerelease a, prerelease b with
  | _ :: _, [] => Lt
  | [], _ :: _ => Gt
  | [], [] => Eq
  | pa, pb => comparePreLoop pa pb
  end.

Definition compare (a b : SemVer) : comparison :=
  match compareMain a b with
  | Eq => comparePre a b
  | c => c
  end.

Definition lt (a b : SemVer) : bool :=
  match compare a b with Lt => true | _ => false end.
End Semver.

Module Lodash.
(** [_.has(object, path)]: "checks if [path] is a direct property of
    [object]", where a string [path] that is not itself a property name is
    parsed as a property path ([_.has(object, 'a.b')],
    [_.has(object, '[a]')]). *)

Definition code (c : ascii) : N := N_of_ascii c.
Definition is_digit (c : ascii) : bool := (48 <=? code c)%N && (code c <=? 57)%N.
Definition is_word (c : ascii) : bool :=
  is_digit c
  || ((65 <=? code c)%N && (code c <=? 90)%N)
  || ((97 <=? code c)%N && (code c <=? 122)%N)
  || (code c =? 95)%N.
Definition is_dot (c : ascii) : bool := (code c =? 46)%N.
Definition is_open (c : ascii) : bool := (code c =? 91)%N.       (* [ *)
Definition is_close (c : ascii) : bool := (code c =? 93)%N.      (* ] *)
Definition is_backslash (c : ascii) : bool := (code c =? 92)%N.
Definition is_quote (c : ascii) : bool := (code c =? 34)%N || (code c =? 39)%N.
Definition is_line_terminator (c : ascii) : bool :=
  (code c =? 10)%N || (code c =? 13)%N.

Fixpoint all_chars (p : ascii → bool) (s : string) : bool :=
  match s with
  | "" => true
  | String c s' => p c && all_chars p s'
  end.

(** The longest prefix of characters satisfying [p], and the rest. *)
Fixpoint span (p : ascii → bool) (s : string) : string * string :=
  match s with
  | "" => ("", "")
  | String c s' =>
      if p c then (let '(a, b) := span p s' in (String c a, b)) else ("", s)
  end.

Definition starts_with_close (s : string) : bool :=
  match s with String c _ => is_close c | "" => false end.

(** [reIsPlainProp = /^\w*$/]. *)
Definition reIsPlainProp (s : string) : bool := all_chars is_word s.

(** The body [(?:(?!q)[^\\]|\\.)*?] of a quoted key and the closing quote
    [q]: the body read, and what follows the closing quote. *)
Fixpoint quoted (q : ascii) (s : string) : option (string * string) :=
  match s with
  | "" => None
  | String c s' =>
      if Ascii.eqb c q then Some ("", s')
      else if is_backslash c then
        match s' with
        | String d s'' =>
            if is_line_terminator d then None
            else match quoted q s'' with
                 | Some (body, rest) => Some (String c (String d body), rest)
                 | None => None
                 end
        | "" => None
        end
      else match quoted q s' with
           | Some (body, rest) => Some (String c body, rest)
           | None => None
           end
  end.

(** A quoted key, its closing quote and the closing bracket at the head of
    [s]: the body, and what follows the bracket. *)
Definition quoted_key (s : string) : option (string * string) :=
  match s with
  | String q s' =>
      if is_quote q then
        match quoted q s' with
        | Some (body, String c rest) => if is_close c then Some (body, rest) else None
        | _ => None
        end
      else None
  | "" => None
  end.

(** [reIsDeepProp = /\.|\[(?:[^[\]]*|(Q)(?:(?!\1)[^\\]|\\.)*?\1)\]/], with
    [Q] a single or a double quote, matched at the head of [s]. *)
Definition deep_at (s : string) : bool :=
  match s with
  | String c s' =>
      is_dot c
      || (is_open c
          && (starts_with_close (span (λ x, negb (is_open x || is_close x)) s').2
              || bool_decide (is_Some (quoted_key s'))))
  | "" => false
  end.

Fixpoint reIsDeepProp (s : string) : bool :=
  deep_at s || match s with String _ s' => reIsDeepProp s' | "" => false end.

(** [reIsUint]: the canonical decimal numerals ([0], or a non-zero digit
    followed by digits), and the number denoted. *)
Fixpoint decimal (acc : N) (s : string) : N :=
  match s with
  | "" => acc
  | String c s' => decimal (10 * acc + (code c - 48))%N s'
  end.
Definition reIsUint (s : string) : bool :=
  match s with
  | "" => false
  | String c s' =>
      if (code c =? 48)%N then bool_decide (s' = "")
      else is_digit c && all_chars is_digit s'
  end.
Definition isIndex (key : string) (length : nat) : bool :=
  reIsUint key && (decimal 0 key <? N.of_nat length)%N.

(** [hasOwnProperty.call(object, key)] for [object != null]. *)
Definition hasOwn (object : jsval) (key : string) : bool :=
  match object with
  | JObject own => bool_decide (key ∈ own.*1)
  | JArray items => bool_decide (key = "length") || isIndex key (length items)
  | JStr s => bool_decide (key = "length") || isIndex key (String.length s)
  | JUndefined | JBool _ | JNum _ => false
  end.

Fixpoint assoc (own : list (string * jsval)) (key : string) : jsval :=
  match own with
  | [] => JUndefined
  | (k, v) :: own' => if bool_decide (k = key) then v else assoc own' key
  end.

(** [object[key]].  Only own properties are looked up: the properties a
    plain object, an array or a string inherits are named by identifiers,
    and the source reads [object[key]] only after [has] found [key]. *)
Definition member (object : jsval) (key : string) : jsval :=
  match object with
  | JObject own => assoc own key
  | JArray items =>
      if bool_decide (key = "length") then JNum (N.of_nat (length items))
      else if reIsUint key then default JUndefined (items !! N.to_nat (decimal 0 key))
      else JUndefined
  | JStr s =>
      if bool_decide (key = "length") then JNum (N.of_nat (String.length s))
      else if isIndex key (String.length s)
      then JStr (String.substring (N.to_nat (decimal 0 key)) 1 s)
      else JUndefined
  | JUndefined | JBool _ | JNum _ => JUndefined
  end.

(** [isKey(value, object)]; the last disjunct is [value in Object(object)],
    which for a string that [reIsDeepProp] matches can only be an own
    property. *)
Definition isKey (value : string) (object : jsval) : bool :=
  reIsPlainProp value || negb (reIsDeepProp value) || hasOwn object value.

(** [-?\d+(?:\.\d+)?] at the head of [s]. *)
Definition number_key (s : string) : option (string * string) :=
  let '(sign, s1) :=
    match s with
    | String c s' => if (code c =? 45)%N then (String c "", s') else ("", s)
    | "" => ("", s)
    end in
  let '(int, s2) := span is_digit s1 in
  if bool_decide (int = "") then None
  else
    match s2 with
    | String c s3 =>
        if is_dot c then
          let '(frac, s4) := span is_digit s3 in
          if bool_decide (frac = "") then Some (sign +:+ int, s2)
          else Some (sign +:+ int +:+ String c frac, s4)
        else Some (sign +:+ int, s2)
    | "" => Some (sign +:+ int, s2)
    end.

(** [reEscapeChar = /\\(\\)?/g] replaced by ['$1']. *)
Fixpoint unescape (s : string) : string :=
  match s with
  | "" => ""
  | String c s' =>
      if is_backslash c then
        match s' with
        | String d s'' => if is_backslash d then String d (unescape s'') else unescape s'
        | "" => ""
        end
      else String c (unescape s')
  end.

(** [(?:\.|\[\])] at the head of [s]: what follows it. *)
Definition dot_or_brackets (s : string) : option string :=
  match s with
  | String c s' =>
      if is_dot c then Some s'
      else if is_open c then
        match s' with
        | String d s'' => if is_close d then Some s'' else None
        | "" => None
        end
      else None
  | "" => None
  end.

(** One match of [rePropName] at the head of a non-empty [s]: the key
    pushed by the replace callback and the rest of the string after the
    match (for the empty match of the third alternative, [s] itself). *)
Definition rePropName_at (s : string) : option (string * string) :=
  let '(plain, rest) := span (λ x, negb (is_dot x || is_open x || is_close x)) s in
  if negb (bool_decide (plain = "")) then Some (plain, rest)
  else
    let bracketed :=
      match s with
      | String c s' =>
          if is_open c then
            match number_key s' with
            | Some (number, String d rest') =>
                if is_close d then Some (number, rest') else None
            | _ =>
                match quoted_key s' with
                | Some (body, rest') => Some (unescape body, rest')
                | None => None
                end
            end
          else None
      | "" => None
      end in
    match bracketed with
    | Some r => Some r
    | None =>
        match dot_or_brackets s with
        | Some after =>
            if bool_decide (after = "") || bool_decide (is_Some (dot_or_brackets after))
            then Some ("", s) else None
        | None => None
        end
    end.

(** [string.replace(rePropName, callback)]: matches are sought from left to
    right; [skip] counts the characters of the last match still to pass. *)
Fixpoint scan (skip : nat) (s : string) : list string :=
  match s with
  | "" => []
  | String _ s' =>
      match skip with
      | S k => scan k s'
      | 0 =>
          match rePropName_at s with
          | Some (key, rest) =>
              key :: scan (String.length s - String.length rest - 1) s'
          | None => scan 0 s'
          end
      end
  end.

Definition stringToPath (s : string) : list string :=
  (match s with
   | String c _ => if is_dot c then [""] else []
   | "" => []
   end) ++ scan 0 s.

Definition castPath (value : string) (object : jsval) : list string :=
  if isKey value object then [value] else stringToPath value.

Definition isArray (v : jsval) : bool :=
  match v with JArray _ => true | _ => false end.
Definition js_length (v : jsval) : nat :=
  match v with
  | JArray items => length items
  | JStr s => String.length s
  | _ => 0
  end.

(** The loop of [hasPath] with [hasFunc = baseHas]. *)
Fixpoint hasPath_loop (object : jsval) (path : list string) : bool :=
  match path with
  | [] => true
  | key :: path' =>
      if hasOwn object key then hasPath_loop (member object key) path'
      else
        match path' with
        | [] => isIndex key (js_length object) && isArray object
        | _ :: _ => false
        end
  end.

Definition hasPath (object : jsval) (path : string) : bool :=
  match castPath path object with
  | [] => false
  | keys => hasPath_loop object keys
  end.

Definition has (object : jsval) (path : string) : bool :=
  match object with
  | JUndefined => false
  | _ => hasPath object path
  end.
End Lodash.

Module Fs.
(** Node's [fs], [glob.sync] and the directory walk of [archiver] over the
    file system of the model. *)

Fixpoint lookup (fs : FS) (path : string) : option content :=
  match fs with
  | [] => None
  | (k, c) :: fs' => if bool_decide (k = path) then Some c else lookup fs' path
  end.

Definition remove (path : string) (fs : FS) : FS :=
  filter (λ kc, kc.1 ≠ path) fs.

(** Writing a file replaces its contents in place, or creates it. *)
Definition write (path : string) (c : content) (fs : FS) : FS :=
  match lookup fs path with
  | Some _ => (λ kc, if bool_decide (kc.1 = path) then (path, c) else kc) <$> fs
  | None => fs ++ [(path, c)]
  end.

Definition existsSync (path : string) : M bool :=
  let* fs := get_fs in ret (bool_decide (is_Some (lookup fs path))).

Definition unlinkSync (path : string) : M unit :=
  let* fs := get_fs in
  match lookup fs path with
  | Some _ => put_fs (remove path fs)
  | None => throw (FsError "ENOENT" path)
  end.

Definition copyFileSync (src dest : string) : M unit :=
  let* fs := get_fs in
  match lookup fs src with
  | Some c => put_fs (write dest c fs)
  | None => throw (FsError "ENOENT" src)
  end.

Fixpoint strip_prefix (pre s : string) : option string :=
  match pre, s with
  | "", _ => Some s
  | String a pre', String b s' =>
      if Ascii.eqb a b then strip_prefix pre' s' else None
  | String _ _, "" => None
  end.

(** The path of the file [key] relative to [directory], when the file
    lies below it; [directory] is written without a trailing separator. *)
Definition relative (directory key : string) : option string :=
  match strip_prefix (directory +:+ "/") key with
  | Some r => if bool_decide (r = "") then None else Some r
  | None => None
  end.

(** The files below [directory]: path, relative path, contents. *)
Definition walk (directory : string) (fs : FS) : list (string * string * content) :=
  omap (λ kc, (λ r, (kc.1, r, kc.2)) <$> relative directory kc.1) fs.

(** [glob.sync('**', { cwd, dot: true, silent: true, follow: true, nodir: true })]. *)
Definition glob_sync (cwd : string) : M (list string) :=
  let* fs := get_fs in ret ((λ e, e.1.2) <$> walk cwd fs).

(** [this.serverless.utils.writeFileDir(path)] creates the directories above
    [path]; directories are implicit in the model. *)
Definition writeFileDir (path : string) : M unit := ret tt.
End Fs.

(** The plugin instance [this], as far as the source reads it.  The
    helpers [getAllNodeFunctions] and [isProviderGoogle] live in [./utils],
    outside the embedded source; they only read the host's configuration
    and are taken as the values they return. *)
Record Plugin := mkPlugin {
  this_log : bool;                          (* is this.log defined *)
  options_verbose : bool;                   (* this.options.verbose *)
  options_function : option string;         (* this.options.function *)
  serverless_version : Semver.SemVer;       (* this.serverless.getVersion() *)
  webpackOutputPath : string;               (* this.webpackOutputPath *)
  excludeRegex : option (string → bool);    (* this.configuration.excludeRegex,
                                               as the test file.match(excludeRegex) *)
  allNodeFunctions : list string;           (* getAllNodeFunctions.call(this) *)
  providerIsGoogle : bool                   (* isProviderGoogle(this.serverless) *)
}.

(** ** The packager factory ([lib/packagers/index.js]) *)

Module Packagers.
Section Factory.
(** The modules [require('./npm')] and [require('./yarn')]. *)
Variables npm yarn : jsval.

Definition registeredPackagers : jsval :=
  JObject [("npm", npm); ("yarn", yarn)].

Definition dquote : string := String (ascii_of_nat 34) "".

(** [exports.get]. *)
Definition get (this : Plugin) (packagerId : string) : M jsval :=
  if negb (Lodash.has registeredPackagers packagerId) then
    let message := "Could not find packager '" +:+ packagerId +:+ "'" in
    (if this_log this
     then emit (LogError ("Could not find packager " +:+ dquote +:+ packagerId +:+ dquote))
     else emit (CliLog ("ERROR: " +:+ message))) >>
    throw (ServerlessError message)
  else ret (Lodash.member registeredPackagers packagerId).
End Factory.
End Packagers.

(** ** Packaging and distribution of the artifacts *)

Module PackageModules.
Import Semver.

(** [this.log.verbose(msg)] when the plugin has a [log], else
    [this.options.verbose && this.serverless.cli.log(msg)]. *)
Definition log_verbose (this : Plugin) (msg : string) : M unit :=
  if this_log this then emit (LogVerbose msg)
  else when (options_verbose this) (emit (CliLog msg)).

(** A reference to a function record of the service: the key under which
    the service holds it. *)
Definition FuncRef := string.

(** [this.serverless.service.getFunction(name)] of the host. *)
Definition getFunction (name : string) : M FuncRef :=
  let* service := get_service in
  match service_functions service !! name with
  | Some _ => ret name
  | None =>
      throw (ServerlessError
               ("Function " +:+ Packagers.dquote +:+ name +:+ Packagers.dquote
                +:+ " doesn't exist in this Service"))
  end.

(** An assignment to a field of the record [func] refers to. *)
Definition update (func : FuncRef) (f : Func → Func) : M unit :=
  let* service := get_service in
  put_service (mkService (service_name service)
                 (alter f func (service_functions service))
                 (service_package service)).

Definition v1_18_0 : SemVer := mkSemVer 1 18 0 [].

Definition setArtifactPath (this : Plugin)
    (funcName : string) (func : FuncRef) (artifactPath : string) : M unit :=
  let version := serverless_version this in
  log_verbose this
    ("Setting artifact for function '" +:+ funcName +:+ "' to '" +:+ artifactPath +:+ "'") >>
  if Semver.lt version v1_18_0 then
    update func (λ f, mkFunc (Some artifactPath) (func_package f)) >>
    update func (λ f, mkFunc (func_artifact f)
                        (Some (<["disable" := JBool true]> (default ∅ (func_package f))))) >>
    when (negb (this_log this))
      (emit (CliLog (funcName +:+ " is packaged by the webpack plugin. Ignore messages from SLS.")))
  else
    update func (λ f, mkFunc (func_artifact f) (Some {["artifact" := JStr artifactPath]})).

(** [fs.createWriteStream(path)]: the file is created or truncated.  The
    stream is opened before the archive walks the directory. *)
Definition createWriteStream (path : string) : M unit :=
  let* fs := get_fs in put_fs (Fs.write path (Zip false []) fs).

(** One entry written to the stream. *)
Definition stream_write (path : string) (entry : string * content) : M unit :=
  let* fs := get_fs in
  match Fs.lookup fs path with
  | Some (Zip finalized entries) => put_fs (Fs.write path (Zip finalized (entries ++ [entry])) fs)
  | _ => ret tt
  end.

(** [archive.finalize()] and the ['close'] event of the stream. *)
Definition stream_close (path : string) : M unit :=
  let* fs := get_fs in
  match Fs.lookup fs path with
  | Some (Zip _ entries) => put_fs (Fs.write path (Zip true entries) fs)
  | _ => ret tt
  end.

Definition newline : string := String (ascii_of_nat 10) "".

(** The archive appends the files of the directory one by one; a file
    that cannot be read raises ['error'], which the handler rethrows;
    after each entry ['progress'] reports the number processed. *)
Fixpoint append_entries (artifactFilePath : string) (total processed : nat)
    (todo : list (string * string * content)) : M unit :=
  match todo with
  | [] => ret tt
  | (path, name, c) :: todo' =>
      let* unreadable := (λ w, (Return (w_unreadable w), w)) in
      if bool_decide (path ∈ unreadable) then throw (ArchiverError path)
      else
        stream_write artifactFilePath (name, c) >>
        let processed := S processed in
        when (total <=? processed)
          (emit (ConsoleLog (newline +:+ pretty processed +:+ "/" +:+ pretty total
                             +:+ " files processed"))) >>
        append_entries artifactFilePath total processed todo'
  end.

Definition serverlessZip (this : Plugin)
    (artifactFilePath directory : string) (files : list string) : M string :=
  createWriteStream artifactFilePath >>
  let total := length files in
  let* fs := get_fs in
  append_entries artifactFilePath total 0 (Fs.walk directory fs) >>
  stream_close artifactFilePath >>
  ret artifactFilePath.

(** The loop [for (index = 0; index < files.length; index++)] of [zip];
    every iteration either removes an element of [files] or advances
    [index], so [length files] iterations suffice. *)
Fixpoint exclude_loop (fuel : nat) (matches : string → bool) (directory : string)
    (index : nat) (files : list string) (filesExcluded : nat)
    : M (list string * nat) :=
  match files !! index with
  | None => ret (files, filesExcluded)
  | Some file =>
      match fuel with
      | 0 => throw OutOfFuel
      | S fuel' =>
          if matches file then
            let files := delete index files in
            let filesExcluded := S filesExcluded in
            let pathFile := Path.join [directory; file] in
            (let* found := Fs.existsSync pathFile in
             when found (Fs.unlinkSync pathFile)) >>
            exclude_loop fuel' matches directory index files filesExcluded
          else exclude_loop fuel' matches directory (S index) files filesExcluded
      end
  end.

(** The first part of [zip]: the files of [directory], less the ones the
    exclusion pattern matches, which are deleted. *)
Definition listFiles (this : Plugin) (directory : string) : M (list string) :=
  let* files := Fs.glob_sync directory in
  match excludeRegex this with
  | Some matches =>
      let* (files, filesExcluded) :=
        exclude_loop (length files) matches directory 0 files 0 in
      log_verbose this ("Excluded " +:+ pretty filesExcluded +:+ " file(s) based on excludeRegex") >>
      ret files
  | None => ret files
  end.

Definition zip (this : Plugin) (directory zipFileName : string) : M string :=
  let* files := listFiles this directory in
  if bool_decide (files = []) then
    throw (ServerlessError "Packaging: No files found")
  else
    let artifactFilePath := Path.join [webpackOutputPath this; zipFileName] in
    Fs.writeFileDir artifactFilePath >>
    serverlessZip this artifactFilePath directory files.

Record ArtifactLocations := mkLocations {
  webpackArtifact : string;
  serverlessArtifact : string
}.

Definition getArtifactLocations (this : Plugin) (name : string) : ArtifactLocations :=
  let archiveName := name +:+ ".zip" in
  mkLocations (Path.join [webpackOutputPath this; archiveName])
              (Path.join [".serverless"; archiveName]).

Definition copyArtifactByName (this : Plugin) (artifactName : string) : M unit :=
  let loc := getArtifactLocations this artifactName in
  Fs.writeFileDir (serverlessArtifact loc) >>
  Fs.copyFileSync (webpackArtifact loc) (serverlessArtifact loc).

(** [_.set(this.serverless, 'service.package.artifact', artifactPath)]. *)
Definition setServiceArtifactPath (artifactPath : string) : M unit :=
  let* service := get_service in
  put_service (mkService (service_name service) (service_functions service)
                 (Some (<["artifact" := JStr artifactPath]>
                          (default ∅ (service_package service))))).

(** [_.get(this.serverless, 'service.package.individually')]. *)
Definition individually_of (service : Service) : jsval :=
  default JUndefined (service_package service ≫= λ p, p !! "individually").
Definition isIndividualPackaging : M jsval :=
  let* service := get_service in ret (individually_of service).

(** [getArtifactName(entryFunction)], with [entryFunction.funcName] if the
    entry has one. *)
Definition getArtifactName (entryFunction : option string) : M string :=
  let* service := get_service in
  ret ((match entryFunction with
        | Some funcName => if truthy (JStr funcName) then funcName else service_name service
        | None => service_name service
        end) +:+ ".zip").

(** [this.options.function ? [this.options.function]
                           : getAllNodeFunctions.call(this)]. *)
Definition functionNames (this : Plugin) : list string :=
  match options_function this with
  | Some f => if truthy (JStr f) then [f] else allNodeFunctions this
  | None => allNodeFunctions this
  end.

(** The copy pass of [copyExistingArtifacts]. *)
Definition copy_pass (this : Plugin) (functionNames : list string)
    (serviceName : string) (individualPackagingEnabled : jsval) : M unit :=
  if truthy individualPackagingEnabled then
    forEach functionNames (λ funcName, copyArtifactByName this funcName)
  else copyArtifactByName this serviceName.

(** The body of the assignment loop of [copyExistingArtifacts]. *)
Definition assign (this : Plugin) (serviceName : string)
    (individualPackagingEnabled : jsval) (funcName : string) : M unit :=
  let* func := getFunction funcName in
  let archiveName := if truthy individualPackagingEnabled then funcName else serviceName in
  let loc := getArtifactLocations this archiveName in
  setArtifactPath this funcName func (serverlessArtifact loc).

Definition copyExistingArtifacts (this : Plugin) : M unit :=
  (if this_log this then
     emit (LogVerbose "[Webpack] Copying existing artifacts") >>
     emit (ProgressNotice "[Webpack] Copying existing artifacts")
   else emit (CliLog "Copying existing artifacts...")) >>
  let functionNames := functionNames this in
  let* service := get_service in
  let serviceName := service_name service in
  let* individualPackagingEnabled := isIndividualPackaging in
  let providerIsGoogle := providerIsGoogle this in
  copy_pass this functionNames serviceName individualPackagingEnabled >>
  forEach functionNames (assign this serviceName individualPackagingEnabled) >>
  when (negb (truthy individualPackagingEnabled) && providerIsGoogle)
    (let archiveName := serviceName in
     let loc := getArtifactLocations this archiveName in
     setServiceArtifactPath (serverlessArtifact loc)).
End PackageModules.

(** ** Vocabulary of the properties *)

Module Spec.
Import PackageModules.

(** The host's version is below the threshold of the version gate. *)
Definition below_threshold (this : Plugin) : bool :=
  Semver.lt (serverless_version this) v1_18_0.

(** The artifact path a function record holds, read in the shape the
    host's version uses: [func.artifact] below the threshold,
    [func.package.artifact] from it on. *)
Definition recorded_artifact (this : Plugin) (f : Func) : option string :=
  if below_threshold this then func_artifact f
  else match func_package f ≫= (.!! "artifact") with
       | Some (JStr path) => Some path
       | _ => None
       end.

(** The artifact binding of the function [name]. *)
Definition binding (this : Plugin) (w : World) (name : string) : option string :=
  service_functions (w_service w) !! name ≫= recorded_artifact this.

(** The service-level artifact binding, [service.package.artifact]. *)
Definition service_binding (w : World) : option jsval :=
  service_package (w_service w) ≫= (.!! "artifact").

(** The message [msg] holds [part]. *)
Definition mentions (msg part : string) : bool :=
  bool_decide (is_Some (String.index 0 part msg)).

(** The notice that the default packaging of a function is overridden. *)
Definition override_notice (funcName : string) : Event :=
  CliLog (funcName +:+ " is packaged by the webpack plugin. Ignore messages from SLS.").

(** A message, on any channel, that tells that the plugin packages. *)
Definition tells_override (e : Event) : bool :=
  match e with
  | LogVerbose msg | LogError msg | ProgressNotice msg | CliLog msg | ConsoleLog msg =>
      mentions msg "is packaged by the webpack plugin"
  end.

(** The packaging mode of the run. *)
Definition individually (w : World) : bool :=
  truthy (individually_of (w_service w)).

(** The archive identity of a function. *)
Definition identity (w : World) (funcName : string) : string :=
  if individually w then funcName else service_name (w_service w).

(** The deploy-stage path of an archive identity. *)
Definition deploy_path (this : Plugin) (name : string) : string :=
  serverlessArtifact (getArtifactLocations this name).

(** The build-stage path of an archive identity. *)
Definition build_path (this : Plugin) (name : string) : string :=
  webpackArtifact (getArtifactLocations this name).

(** The archive identities of the run: one per function to process in
    Individual mode, the service's in Unified mode. *)
Definition identities (this : Plugin) (w : World) : list string :=
  if individually w then functionNames this else [service_name (w_service w)].

(** The name holds no path separator. *)
Fixpoint no_separator (s : string) : bool :=
  match s with
  | "" => true
  | String c s' => negb (Ascii.eqb c "/") && no_separator s'
  end.

(** The distribution as the specification words it: in Unified mode every
    function is bound to the deploy-stage path of the service, in
    Individual mode to the one of its own name, and two functions with
    distinct names are bound to distinct paths. *)
Definition distribution_stated (this : Plugin) (w : World) : Prop :=
  ∃ w', copyExistingArtifacts this w = (Return tt, w')
    ∧ (individually w = false → ∀ n, n ∈ functionNames this →
         binding this w' n = Some (deploy_path this (service_name (w_service w))))
    ∧ (individually w = true → ∀ n, n ∈ functionNames this →
         binding this w' n = Some (deploy_path this n))
    ∧ (individually w = true → ∀ n m,
         n ∈ functionNames this → m ∈ functionNames this → n ≠ m →
         binding this w' n ≠ binding this w' m).

(** The coverage of the assignment as the specification words it: after
    the distribution every function the plugin knows has a binding, also
    when only the function selected by [-f] was copied. *)
Definition assignment_covers_all_stated (this : Plugin) (w : World) : Prop :=
  ∃ w', copyExistingArtifacts this w = (Return tt, w')
    ∧ ∀ n, n ∈ allNodeFunctions this → is_Some (binding this w' n).

(** The world with another file system. *)
Definition set_fs (fs : FS) (w : World) : World :=
  mkWorld fs (w_unreadable w) (w_service w) (w_out w).

(** The relative paths of the files below [directory]. *)
Definition glob_names (directory : string) (fs : FS) : list string :=
  (λ e, e.1.2) <$> Fs.walk directory fs.

(** The filtered file set: the files below [directory] that the exclusion
    pattern, if any, does not match. *)
Definition filtered (this : Plugin) (directory : string) (fs : FS) : list string :=
  match excludeRegex this with
  | Some matches => filter (λ r, matches r = false) (glob_names directory fs)
  | None => glob_names directory fs
  end.

(** The files below [directory] that the exclusion pattern matches. *)
Definition excluded (this : Plugin) (directory : string) (fs : FS) : list string :=
  match excludeRegex this with
  | Some matches => filter (λ r, matches r = true) (glob_names directory fs)
  | None => []
  end.

(** The file system after the files [names] of [directory] are deleted. *)
Definition delete_all (directory : string) (names : list string) (fs : FS) : FS :=
  foldl (λ fs r, Fs.remove (Path.join [directory; r]) fs) fs names.

(** The messages of [listFiles]. *)
Definition exclusion_messages (this : Plugin) (directory : string) (fs : FS) : list Event :=
  match excludeRegex this with
  | Some _ =>
      let msg := "Excluded " +:+ pretty (length (excluded this directory fs))
                 +:+ " file(s) based on excludeRegex" in
      if this_log this then [LogVerbose msg]
      else if options_verbose this then [CliLog msg] else []
  | None => []
  end.

(** Every file of the file system is held under a normalised path. *)
Definition fs_normalized (fs : FS) : Prop :=
  ∀ k c, (k, c) ∈ fs → Path.normalize k = k.

(** The entries an archive of [directory] holds. *)
Definition entries_of (directory : string) (fs : FS) : list (string * content) :=
  (λ e, (e.1.2, e.2)) <$> Fs.walk directory fs.

(** The build-stage path [zip] writes the archive to. *)
Definition artifact_path (this : Plugin) (zipFileName : string) : string :=
  Path.join [webpackOutputPath this; zipFileName].



(** The messages that open [copyExistingArtifacts]. *)
Definition copying_messages (this : Plugin) : list Event :=
  if this_log this
  then [LogVerbose "[Webpack] Copying existing artifacts";
        ProgressNotice "[Webpack] Copying existing artifacts"]
  else [CliLog "Copying existing artifacts..."].

(** The function record after [setArtifactPath]. *)
Definition assigned (this : Plugin) (artifactPath : string) (f : Func) : Func :=
  if below_threshold this
  then mkFunc (Some artifactPath)
              (Some (<["disable" := JBool true]> (default ∅ (func_package f))))
  else mkFunc (func_artifact f) (Some {["artifact" := JStr artifactPath]}).

(** The messages of [setArtifactPath]. *)
Definition assignment_messages (this : Plugin)
    (funcName artifactPath : string) : list Event :=
  let msg := "Setting artifact for function '" +:+ funcName +:+ "' to '"
             +:+ artifactPath +:+ "'" in
  (if this_log this then [LogVerbose msg]
   else if options_verbose this then [CliLog msg] else [])
  ++ (if below_threshold this && negb (this_log this)
      then [override_notice funcName] else []).

(** The version-gated assignment as the specification words it: below the
    threshold a flat path, the disable flag and the notice; from the
    threshold on a nested descriptor; the same path in both shapes. *)
Definition gated_assignment_stated (this : Plugin)
    (funcName artifactPath : string) (w : World) : Prop :=
  ∃ w' f',
    setArtifactPath this funcName funcName artifactPath w = (Return tt, w')
    ∧ service_functions (w_service w') !! funcName = Some f'
    ∧ (below_threshold this = true →
         func_artifact f' = Some artifactPath
         ∧ func_package f' ≫= (.!! "disable") = Some (JBool true)
         ∧ ∃ e, e ∈ w_out w' ∧ tells_override e = true)
    ∧ (below_threshold this = false →
         func_package f' ≫= (.!! "artifact") = Some (JStr artifactPath))
    ∧ recorded_artifact this f' = Some artifactPath.
End Spec.

(** ** Sample inputs *)

Module Sample.
Definition v1_17_0 : Semver.SemVer := Semver.mkSemVer 1 17 0 [].
Definition v3_0_0 : Semver.SemVer := Semver.mkSemVer 3 0 0 [].

(** A plugin on an old host that nevertheless provides [this.log]. *)
Definition old_host_with_log : Plugin :=
  mkPlugin true false None v1_17_0 ".webpack" None ["f1"; "f2"] false.
(** A plugin on an old host with the legacy logger. *)
Definition old_host : Plugin :=
  mkPlugin false false None v1_17_0 ".webpack" None ["f1"; "f2"] false.
(** A plugin on a recent host. *)
Definition new_host : Plugin :=
  mkPlugin true false None v3_0_0 ".webpack" None ["f1"; "f2"] false.

Definition f1 : Func := mkFunc None None.
Definition f2 : Func :=
  mkFunc None (Some {["include" := JArray [JStr "lib/**"]; "disable" := JBool false]}).

Definition unified_service : Service :=
  mkService "svc" {["f1" := f1; "f2" := f2]} None.
Definition individual_service : Service :=
  mkService "svc" {["f1" := f1; "f2" := f2]} (Some {["individually" := JBool true]}).

(** Two functions whose names differ by a [./] prefix. *)
Definition dotted_names : Plugin :=
  mkPlugin true false None v3_0_0 ".webpack" None ["a"; "./a"] false.
Definition dotted_world : World :=
  mkWorld [(".webpack/a.zip", Zip true [("a.js", Data "a")])] ∅
    (mkService "svc" {["a" := f1; "./a" := f1]}
       (Some {["individually" := JBool true]})) [].

(** A run of [deploy function -f f1]. *)
Definition only_f1 : Plugin :=
  mkPlugin true false (Some "f1") v3_0_0 ".webpack" None ["f1"; "f2"] false.

(** A deployment to the google provider. *)
Definition google : Plugin :=
  mkPlugin true false None v3_0_0 ".webpack" None ["f1"; "f2"] true.

(** The exclusion pattern [/\.map$/]. *)
Definition source_maps (file : string) : bool :=
  bool_decide (String.substring (String.length file - 4) 4 file = ".map").

Definition excluding_maps : Plugin :=
  mkPlugin true false None v3_0_0 ".webpack" (Some source_maps) ["f1"; "f2"] false.

(** A compiled service: two modules and a source map. *)
Definition compiled_fs : FS :=
  [(".webpack/service/handler.js", Data "exports.handler = ...");
   (".webpack/service/handler.js.map", Data "{}");
   (".webpack/service/lib/util.js", Data "module.exports = ...")].
Definition compiled_world : World := mkWorld compiled_fs ∅ unified_service [].
(** The same, with a module that cannot be read. *)
Definition unreadable_world : World :=
  mkWorld compiled_fs {[".webpack/service/lib/util.js"]} unified_service [].

Definition unified_world : World :=
  mkWorld [(".webpack/svc.zip", Zip true [("handler.js", Data "h")])] ∅ unified_service [].
Definition individual_world : World :=
  mkWorld [(".webpack/f1.zip", Zip true [("f1.js", Data "1")]);
           (".webpack/f2.zip", Zip true [("f2.js", Data "2")])] ∅ individual_service [].

End Sample.

(** * Properties *)

(** ** Library models on sample inputs *)

Example stringToPath_ex1 : Lodash.stringToPath "a[0].b.c" = ["a"; "0"; "b"; "c"].
Proof. reflexivity. Qed.

Example stringToPath_ex2 : Lodash.stringToPath "a..b" = ["a"; ""; "b"].
Proof. reflexivity. Qed.

Example stringToPath_ex3 : Lodash.stringToPath ".a[-1.5]['x.y'][]" = [""; "a"; "-1.5"; "x.y"; ""].
Proof. reflexivity. Qed.

Example stringToPath_ex4 : Lodash.stringToPath "[npm]" = ["npm"].
Proof. reflexivity. Qed.

Example path_join_ex1 : Path.join [".serverless"; "a.zip"] = ".serverless/a.zip".
Proof. reflexivity. Qed.

Example path_join_ex2 : Path.join [".serverless"; "./a.zip"] = ".serverless/a.zip".
Proof. reflexivity. Qed.

Example path_join_ex3 : Path.join ["/x/y/"; "../../../b/"] = "/b/".
Proof. reflexivity. Qed.

Example path_join_ex4 : Path.join ["x"; "../../b"] = "../b".
Proof. reflexivity. Qed.

Example path_join_ex5 : Path.join [""; ""] = ".".
Proof. reflexivity. Qed.

Example path_join_ex6 : Path.join ["a"; ".."] = ".".
Proof. reflexivity. Qed.


Example semver_lt_ex1 :
  Semver.lt (Semver.mkSemVer 1 17 9 []) PackageModules.v1_18_0 = true.
Proof. reflexivity. Qed.
Example semver_lt_ex2 :
  Semver.lt (Semver.mkSemVer 1 18 0 [Semver.AlphaId "rc"; Semver.NumId 1])
    PackageModules.v1_18_0 = true.
Proof. reflexivity. Qed.
Example semver_lt_ex3 :
  Semver.lt (Semver.mkSemVer 1 18 0 []) PackageModules.v1_18_0 = false.
Proof. reflexivity. Qed.
Example semver_lt_ex4 :
  Semver.lt (Semver.mkSemVer 2 0 0 []) PackageModules.v1_18_0 = false.
Proof. reflexivity. Qed.
Example has_ex1 npm yarn :
  Lodash.has (Packagers.registeredPackagers npm yarn) "npm" = true.
Proof. reflexivity. Qed.
Example has_ex2 npm yarn :
  Lodash.has (Packagers.registeredPackagers npm yarn) "NPM" = false.
Proof. reflexivity. Qed.
Example has_ex3 yarn :
  Lodash.has (Packagers.registeredPackagers
                (JObject [("name", JStr "NPM"); ("lockfileName", JStr "package-lock.json")])
                yarn) "npm.lockfileName" = true.
Proof. reflexivity. Qed.
Example has_ex4 npm yarn :
  Lodash.has (Packagers.registeredPackagers npm yarn) "toString" = false.
Proof. reflexivity. Qed.

Example mentions_ex1 :
  Spec.tells_override (Spec.override_notice "f1") = true.
Proof. reflexivity. Qed.
Example mentions_ex2 :
  Spec.mentions "ENOENT: no such file or directory, scandir '.webpack/service'"
    ".webpack/service" = true.
Proof. reflexivity. Qed.
Example mentions_ex3 :
  Spec.mentions "Packaging: No files found" ".webpack/service" = false.
Proof. reflexivity. Qed.

(** ** The effect monad *)

Lemma bind_Return {A B} (m : M A) (k : A → M B) w a w1 :
  m w = (Return a, w1) → bind m k w = k a w1.
Proof. unfold bind. by intros ->. Qed.

Lemma bind_Throw {A B} (m : M A) (k : A → M B) w e w1 :
  m w = (Throw e, w1) → bind m k w = (Throw e, w1).
Proof. unfold bind. by intros ->. Qed.

(** ** The packager factory *)

Section FactoryFacts.
Variables npm yarn : jsval.
Variable this : Plugin.

Lemma get_npm w : Packagers.get npm yarn this "npm" w = (Return npm, w).
Proof. reflexivity. Qed.

Lemma get_yarn w : Packagers.get npm yarn this "yarn" w = (Return yarn, w).
Proof. reflexivity. Qed.

Lemma no_dot_no_bracket_not_deep id :
  Lodash.all_chars (λ c, negb (Lodash.is_dot c || Lodash.is_open c)) id = true →
  Lodash.reIsDeepProp id = false.
Proof.
  induction id as [|c id IH]; [done|]. simpl.
  intros [Hc Hid]%andb_true_iff. rewrite (IH Hid).
  apply negb_true_iff, orb_false_iff in Hc as [-> ->]. done.
Qed.

Lemma has_plain_key id :
  Lodash.reIsDeepProp id = false →
  Lodash.has (Packagers.registeredPackagers npm yarn) id
  = bool_decide (id = "npm" ∨ id = "yarn").
Proof.
  intros Hdeep. unfold Lodash.has, Lodash.hasPath, Lodash.castPath, Lodash.isKey.
  rewrite Hdeep, orb_true_r. simpl.
  rewrite andb_false_r.
  destruct (decide (id = "npm" ∨ id = "yarn")) as [Hid|Hid].
  - rewrite !bool_decide_eq_true_2; [done..|set_solver].
  - rewrite !bool_decide_eq_false_2; [done..|set_solver].
Qed.

(** An identifier without property-path syntax that is not registered is
    rejected: the error and the log message carry the identifier as given,
    and nothing else changes. *)
Lemma get_unregistered_plain id w :
  Lodash.all_chars (λ c, negb (Lodash.is_dot c || Lodash.is_open c)) id = true →
  id ≠ "npm" → id ≠ "yarn" →
  let message := "Could not find packager '" +:+ id +:+ "'" in
  Packagers.get npm yarn this id w
  = (Throw (ServerlessError message),
     mkWorld (w_fs w) (w_unreadable w) (w_service w)
       (w_out w ++
        [if this_log this
         then LogError ("Could not find packager " +:+ Packagers.dquote +:+ id
                        +:+ Packagers.dquote)
         else CliLog ("ERROR: " +:+ message)])).
Proof.
  intros Hid Hn Hy. unfold Packagers.get.
  rewrite has_plain_key by by apply no_dot_no_bracket_not_deep.
  rewrite bool_decide_eq_false_2 by naive_solver. simpl.
  unfold bind, throw, emit. by destruct (this_log this).
Qed.

(** Every unregistered identifier that passes the guard is answered with
    [undefined]. *)
Lemma get_unregistered_path id w :
  Lodash.has (Packagers.registeredPackagers npm yarn) id = true →
  id ≠ "npm" → id ≠ "yarn" →
  Packagers.get npm yarn this id w = (Return JUndefined, w).
Proof.
  intros Hhas Hn Hy. unfold Packagers.get. rewrite Hhas. cbn.
  by rewrite !bool_decide_eq_false_2.
Qed.
End FactoryFacts.

(** C3, the case the code misses: the identifier [[npm]] is not
    registered, yet [get] does not reject it: [_.has] reads it as the
    property path [npm], and the lookup of the identifier itself then
    yields [undefined], without an error and without a log message. *)
Theorem get_bracketed_id_returns_undefined npm yarn this w :
  Packagers.get npm yarn this "[npm]" w = (Return JUndefined, w).
Proof. reflexivity. Qed.

(** ** Assignment of an artifact path to a function record *)

Section SetArtifactPath.
Import PackageModules Spec.
Variable this : Plugin.

Lemma setArtifactPath_run funcName func artifactPath w :
  setArtifactPath this funcName func artifactPath w
  = (Return tt,
     mkWorld (w_fs w) (w_unreadable w)
       (mkService (service_name (w_service w))
          (alter (assigned this artifactPath) func (service_functions (w_service w)))
          (service_package (w_service w)))
       (w_out w ++ assignment_messages this funcName artifactPath)).
Proof.
  unfold setArtifactPath, assigned, assignment_messages, below_threshold,
    log_verbose, update, override_notice.
  destruct w as [fs un [name fns pkg] out].
  destruct (Semver.lt _ _), (this_log this), (options_verbose this);
    cbn; rewrite ?alter_alter_eq; unfold compose, emit, ret; cbn;
    rewrite ?app_nil_r, <- ?app_assoc; reflexivity.
Qed.

Lemma recorded_assigned artifactPath f :
  recorded_artifact this (assigned this artifactPath f) = Some artifactPath.
Proof.
  unfold recorded_artifact, assigned.
  destruct (below_threshold this); simpl; [done|].
  by rewrite lookup_singleton_eq.
Qed.

(** C5, amended: the assignment is gated on the host's version.  Below
    1.18.0 the function record receives the flat artifact path and the
    disable flag, and the notice is written to the legacy logger when the
    plugin has no [log]; from 1.18.0 on the record receives the nested
    descriptor; in both shapes the path recorded is the path given. *)
Theorem setArtifactPath_version_gated funcName artifactPath w f :
  service_functions (w_service w) !! funcName = Some f →
  ∃ w' f',
    setArtifactPath this funcName funcName artifactPath w = (Return tt, w')
    ∧ service_functions (w_service w') !! funcName = Some f'
    ∧ (below_threshold this = true →
         func_artifact f' = Some artifactPath
         ∧ func_package f' ≫= (.!! "disable") = Some (JBool true)
         ∧ (this_log this = false → override_notice funcName ∈ w_out w'))
    ∧ (below_threshold this = false →
         func_package f' ≫= (.!! "artifact") = Some (JStr artifactPath))
    ∧ recorded_artifact this f' = Some artifactPath.
Proof.
  intros Hf. eexists _, (assigned this artifactPath f).
  split; [apply setArtifactPath_run|]. cbn.
  split; [by rewrite lookup_alter_eq, Hf|].
  split; [|split; [|apply recorded_assigned]];
    unfold assigned, assignment_messages; intros Hb; rewrite Hb; cbn.
  - split; [done|]. split; [apply lookup_insert_eq|].
    intros ->. cbn. set_solver.
  - apply lookup_singleton_eq.
Qed.

(** C10: what the two shapes keep of the function record.  From 1.18.0 on
    the whole [package] object is replaced by one that holds the artifact
    path only; below, the assignment merges into the existing [package]
    object, keeps its other fields and adds the disable flag. *)
Theorem setArtifactPath_package_frame funcName artifactPath w f :
  service_functions (w_service w) !! funcName = Some f →
  ∃ w' f',
    setArtifactPath this funcName funcName artifactPath w = (Return tt, w')
    ∧ service_functions (w_service w') !! funcName = Some f'
    ∧ (below_threshold this = false →
         func_package f' = Some {["artifact" := JStr artifactPath]}
         ∧ (∀ k, k ≠ "artifact" → func_package f' ≫= (.!! k) = None)
         ∧ func_artifact f' = func_artifact f)
    ∧ (below_threshold this = true →
         ∃ pkg', func_package f' = Some pkg'
           ∧ pkg' !! "disable" = Some (JBool true)
           ∧ ∀ k, k ≠ "disable" → pkg' !! k = func_package f ≫= (.!! k)).
Proof.
  intros Hf. eexists _, (assigned this artifactPath f).
  split; [apply setArtifactPath_run|]. cbn.
  split; [by rewrite lookup_alter_eq, Hf|].
  unfold assigned. split; intros Hb; rewrite Hb; cbn.
  - split; [done|]. split; [|done].
    intros k Hk. by apply lookup_singleton_ne.
  - eexists. split; [done|]. split.
    + apply lookup_insert_eq.
    + intros k Hk. rewrite lookup_insert_ne by done.
      destruct (func_package f); [done|]. apply lookup_empty.
Qed.
End SetArtifactPath.

(** C5 as stated fails: on a host below 1.18.0 whose plugin has a [log],
    the only message is the verbose one, and no notice is written. *)
Lemma gated_assignment_stated_fails :
  ¬ Spec.gated_assignment_stated Sample.old_host_with_log
      "f1" ".serverless/f1.zip" Sample.unified_world.
Proof.
  intros (w' & f' & Hrun & _ & Hbelow & _).
  destruct (Hbelow eq_refl) as (_ & _ & e & He & Htells).
  rewrite setArtifactPath_run in Hrun. injection Hrun as <-.
  cbn in He. apply list_elem_of_singleton in He. subst e.
  vm_compute in Htells. discriminate.
Qed.

Lemma setArtifactPath_version_gated_witness :
  service_functions (w_service Sample.unified_world) !! "f1" = Some Sample.f1
  ∧ ∃ w' f',
      PackageModules.setArtifactPath Sample.old_host "f1" "f1" ".serverless/f1.zip"
        Sample.unified_world = (Return tt, w')
      ∧ service_functions (w_service w') !! "f1" = Some f'
      ∧ func_artifact f' = Some ".serverless/f1.zip"
      ∧ Spec.override_notice "f1" ∈ w_out w'.
Proof.
  split; [reflexivity|].
  destruct (setArtifactPath_version_gated Sample.old_host "f1" ".serverless/f1.zip"
              Sample.unified_world Sample.f1 eq_refl)
    as (w' & f' & Hrun & Hf' & Hbelow & _).
  destruct (Hbelow eq_refl) as (Hart & _ & Hnotice).
  exists w', f'. repeat split; [exact Hrun|exact Hf'|exact Hart|exact (Hnotice eq_refl)].
Defined.

Lemma setArtifactPath_package_frame_witness :
  service_functions (w_service Sample.unified_world) !! "f2" = Some Sample.f2
  ∧ ∃ w' f',
      PackageModules.setArtifactPath Sample.old_host "f2" "f2" ".serverless/svc.zip"
        Sample.unified_world = (Return tt, w')
      ∧ service_functions (w_service w') !! "f2" = Some f'
      ∧ func_package f' ≫= (.!! "include") = Some (JArray [JStr "lib/**"])
      ∧ func_package f' ≫= (.!! "disable") = Some (JBool true).
Proof.
  split; [reflexivity|].
  destruct (setArtifactPath_package_frame Sample.old_host "f2" ".serverless/svc.zip"
              Sample.unified_world Sample.f2 eq_refl)
    as (w' & f' & Hrun & Hf' & _ & Hbelow).
  destruct (Hbelow eq_refl) as (pkg' & Hpkg & Hdis & Hframe).
  exists w', f'. split; [exact Hrun|]. split; [exact Hf'|].
  rewrite Hpkg. cbn. split; [|exact Hdis].
  rewrite (Hframe "include") by discriminate. reflexivity.
Defined.

(** ** Distribution of the artifacts *)

Section Distribution.
Import PackageModules Spec.
Variable this : Plugin.

Lemma lookup_replace path c fs q :
  Fs.lookup ((λ kc, if bool_decide (kc.1 = path) then (path, c) else kc) <$> fs) q
  = if bool_decide (path = q) then (λ _, c) <$> Fs.lookup fs path else Fs.lookup fs q.
Proof.
  induction fs as [|[k c1] fs IH]; cbn in *; [by case_bool_decide|].
  repeat (case_bool_decide; simplify_eq/=); try done; try congruence.
Qed.

Lemma lookup_snoc path c fs q :
  Fs.lookup (fs ++ [(path, c)]) q
  = match Fs.lookup fs q with
    | Some c' => Some c'
    | None => if bool_decide (path = q) then Some c else None
    end.
Proof.
  induction fs as [|[k c1] fs IH]; cbn; [done|].
  by destruct (bool_decide (k = q)).
Qed.

Lemma lookup_write path c fs q :
  Fs.lookup (Fs.write path c fs) q
  = if bool_decide (path = q) then Some c else Fs.lookup fs q.
Proof.
  unfold Fs.write. destruct (Fs.lookup fs path) as [c0|] eqn:Hl.
  - rewrite lookup_replace, Hl. by case_bool_decide.
  - rewrite lookup_snoc. case_bool_decide; simplify_eq; [by rewrite Hl|].
    by destruct (Fs.lookup fs q).
Qed.

Lemma lookup_write_is_Some path c fs q :
  is_Some (Fs.lookup fs q) → is_Some (Fs.lookup (Fs.write path c fs) q).
Proof. rewrite lookup_write. case_bool_decide; eauto. Qed.

Lemma copyArtifactByName_run a w :
  copyArtifactByName this a w
  = match Fs.lookup (w_fs w) (build_path this a) with
    | Some c => (Return tt,
                 mkWorld (Fs.write (deploy_path this a) c (w_fs w))
                   (w_unreadable w) (w_service w) (w_out w))
    | None => (Throw (FsError "ENOENT" (build_path this a)), w)
    end.
Proof.
  unfold copyArtifactByName, Fs.copyFileSync, Fs.writeFileDir, bind, ret,
    get_fs, build_path, deploy_path.
  by destruct (Fs.lookup _ _).
Qed.

(** The copy loop succeeds when every build-stage artifact exists; it
    writes files and nothing else. *)
Lemma copy_each_ok names : ∀ w,
  (∀ n, n ∈ names → is_Some (Fs.lookup (w_fs w) (build_path this n))) →
  ∃ fs', forEach names (copyArtifactByName this) w
         = (Return tt, mkWorld fs' (w_unreadable w) (w_service w) (w_out w))
       ∧ ∀ p, is_Some (Fs.lookup (w_fs w) p) → is_Some (Fs.lookup fs' p).
Proof.
  induction names as [|n names IH]; intros w Hsrc; cbn.
  - exists (w_fs w). by destruct w.
  - unfold bind. rewrite copyArtifactByName_run.
    destruct (Hsrc n) as [c Hc]; [set_solver|]. rewrite Hc.
    destruct (IH (mkWorld (Fs.write (deploy_path this n) c (w_fs w))
                    (w_unreadable w) (w_service w) (w_out w)))
      as (fs' & Hrun & Hkeep).
    { intros m Hm. cbn. apply lookup_write_is_Some, Hsrc. set_solver. }
    exists fs'. split; [exact Hrun|].
    intros p Hp. by apply Hkeep, lookup_write_is_Some.
Qed.

(** Whatever its outcome, the copy loop leaves the service untouched. *)
Lemma copy_each_service names : ∀ w,
  w_service (forEach names (copyArtifactByName this) w).2 = w_service w.
Proof.
  induction names as [|n names IH]; intros w; cbn; [done|].
  unfold bind. rewrite copyArtifactByName_run.
  destruct (Fs.lookup _ _); [|done]. by rewrite IH.
Qed.

Lemma assign_run serviceName ind n f w :
  service_functions (w_service w) !! n = Some f →
  assign this serviceName ind n w
  = setArtifactPath this n n
      (deploy_path this (if truthy ind then n else serviceName)) w.
Proof.
  intros Hf. unfold assign, getFunction, bind, get_service, ret.
  by rewrite Hf.
Qed.

(** The assignment loop: every name of the list ends with the record
    [setArtifactPath] leaves, every other record is as before. *)
Lemma assign_each serviceName ind names : ∀ w,
  (∀ n, n ∈ names → is_Some (service_functions (w_service w) !! n)) →
  ∃ w', forEach names (assign this serviceName ind) w = (Return tt, w')
      ∧ w_fs w' = w_fs w
      ∧ service_name (w_service w') = service_name (w_service w)
      ∧ service_package (w_service w') = service_package (w_service w)
      ∧ (∀ n, n ∈ names → ∃ f0,
           service_functions (w_service w') !! n
           = Some (assigned this
                     (deploy_path this (if truthy ind then n else serviceName)) f0))
      ∧ (∀ n, n ∉ names →
           service_functions (w_service w') !! n = service_functions (w_service w) !! n).
Proof.
  induction names as [|n names IH]; intros w Hfun; cbn.
  - exists w. set_solver.
  - destruct (Hfun n) as [f Hf]; [set_solver|].
    unfold bind. rewrite (assign_run _ _ _ f), setArtifactPath_run by done.
    match goal with |- context [forEach _ _ ?w1] => set (w1' := w1) end.
    destruct (IH w1') as (w' & Hrun & Hfs & Hname & Hpkg & Hin & Hout).
    { intros m Hm. subst w1'. cbn.
      rewrite lookup_alter_is_Some. apply Hfun. set_solver. }
    exists w'. rewrite Hrun. split; [done|].
    split; [by rewrite Hfs|]. split; [by rewrite Hname|]. split; [by rewrite Hpkg|].
    split.
    + intros m Hm. destruct (decide (m ∈ names)) as [Hm'|Hm']; [by apply Hin|].
      assert (m = n) as -> by set_solver.
      rewrite Hout by done. subst w1'. cbn.
      rewrite lookup_alter_eq, Hf. cbn. eauto.
    + intros m Hm. rewrite Hout by set_solver. subst w1'. cbn.
      apply lookup_alter_ne. set_solver.
Qed.

Lemma copying_messages_run w :
  (if this_log this then
     emit (LogVerbose "[Webpack] Copying existing artifacts") >>
     emit (ProgressNotice "[Webpack] Copying existing artifacts")
   else emit (CliLog "Copying existing artifacts...")) w
  = (Return tt, mkWorld (w_fs w) (w_unreadable w) (w_service w)
                  (w_out w ++ copying_messages this)).
Proof.
  unfold copying_messages, bind, emit. destruct (this_log this); cbn; [|done].
  by rewrite <- app_assoc.
Qed.

(** A run of [copyExistingArtifacts] whose build-stage artifacts exist and
    whose function names are functions of the service. *)
Lemma copyExistingArtifacts_run w :
  (∀ a, a ∈ identities this w → is_Some (Fs.lookup (w_fs w) (build_path this a))) →
  (∀ n, n ∈ functionNames this → is_Some (service_functions (w_service w) !! n)) →
  ∃ w', copyExistingArtifacts this w = (Return tt, w')
    ∧ (∀ n, n ∈ functionNames this → ∃ f0,
         service_functions (w_service w') !! n
         = Some (assigned this (deploy_path this (identity w n)) f0))
    ∧ (∀ n, n ∉ functionNames this →
         service_functions (w_service w') !! n = service_functions (w_service w) !! n)
    ∧ service_package (w_service w')
      = (if negb (individually w) && providerIsGoogle this
         then Some (<["artifact" := JStr (deploy_path this (service_name (w_service w)))]>
                      (default ∅ (service_package (w_service w))))
         else service_package (w_service w))
    ∧ (∀ p, is_Some (Fs.lookup (w_fs w) p) → is_Some (Fs.lookup (w_fs w') p)).
Proof.
  intros Hsrc Hfun. unfold copyExistingArtifacts.
  erewrite bind_Return by apply copying_messages_run.
  erewrite bind_Return by reflexivity.
  erewrite bind_Return by reflexivity. cbn [w_service].
  set (wl := mkWorld (w_fs w) (w_unreadable w) (w_service w)
               (w_out w ++ copying_messages this)).
  assert (∃ fs', copy_pass this (functionNames this) (service_name (w_service w))
                   (individually_of (w_service w)) wl
                 = (Return tt, mkWorld fs' (w_unreadable w) (w_service w)
                                 (w_out w ++ copying_messages this))
               ∧ ∀ p, is_Some (Fs.lookup (w_fs w) p) → is_Some (Fs.lookup fs' p))
    as (fs' & Hcopy & Hkeep).
  { unfold copy_pass, identities, individually in *.
    destruct (truthy (individually_of (w_service w))).
    - by apply (copy_each_ok _ wl).
    - rewrite copyArtifactByName_run. cbn [wl w_fs w_unreadable w_service w_out].
      destruct (Hsrc (service_name (w_service w))) as [c Hc]; [set_solver|].
      rewrite Hc. eexists. split; [done|].
      intros p Hp. by apply lookup_write_is_Some. }
  erewrite bind_Return by exact Hcopy.
  edestruct (assign_each (service_name (w_service w))
               (individually_of (w_service w)) (functionNames this)
               (mkWorld fs' (w_unreadable w) (w_service w)
                  (w_out w ++ copying_messages this)))
    as (w3 & Hassign & Hfs & Hname & Hpkg & Hin & Hout); [exact Hfun|].
  erewrite bind_Return by exact Hassign.
  cbn in Hfs, Hname, Hpkg, Hout.
  unfold identity, individually.
  destruct (negb (truthy (individually_of (w_service w))) && providerIsGoogle this); cbn.
  - eexists. split; [reflexivity|]. cbn. rewrite Hpkg, Hfs. done.
  - exists w3. rewrite Hpkg, Hfs. done.
Qed.

Lemma copyExistingArtifacts_binds w :
  (∀ a, a ∈ identities this w → is_Some (Fs.lookup (w_fs w) (build_path this a))) →
  (∀ n, n ∈ functionNames this → is_Some (service_functions (w_service w) !! n)) →
  ∃ w', copyExistingArtifacts this w = (Return tt, w')
    ∧ (∀ n, n ∈ functionNames this →
         binding this w' n = Some (deploy_path this (identity w n)))
    ∧ (∀ n, n ∉ functionNames this →
         service_functions (w_service w') !! n = service_functions (w_service w) !! n)
    ∧ service_package (w_service w')
      = (if negb (individually w) && providerIsGoogle this
         then Some (<["artifact" := JStr (deploy_path this (service_name (w_service w)))]>
                      (default ∅ (service_package (w_service w))))
         else service_package (w_service w)).
Proof.
  intros Hsrc Hfun.
  destruct (copyExistingArtifacts_run w Hsrc Hfun)
    as (w' & Hrun & Hin & Hout & Hpkg & _).
  exists w'. repeat split; try done.
  intros n Hn. destruct (Hin n Hn) as [f0 Hf0].
  unfold binding. rewrite Hf0. cbn. apply recorded_assigned.
Qed.

(** Deploy-stage paths of names without a path separator. *)
Lemma length_app (a b : string) :
  String.length (a +:+ b) = String.length a + String.length b.
Proof. induction a as [|c a IH]; cbn; [done|]. by rewrite <- IH. Qed.

Lemma no_separator_app a b :
  no_separator a = true → no_separator b = true → no_separator (a +:+ b) = true.
Proof.
  induction a as [|c a IH]; cbn; [done|].
  intros [Hc Ha]%andb_true_iff Hb. change (String c a +:+ b) with (String c (a +:+ b)).
  cbn. by rewrite Hc, IH.
Qed.

Lemma split_no_separator s : no_separator s = true → Path.split s = [s].
Proof.
  induction s as [|c s IH]; cbn; [done|].
  intros [Hc Hs]%andb_true_iff. apply negb_true_iff in Hc.
  by rewrite Hc, IH.
Qed.

Lemma ends_with_slash_zip s : Path.ends_with_slash (s +:+ ".zip") = false.
Proof.
  induction s as [|c s IH]; [done|].
  change (String c s +:+ ".zip") with (String c (s +:+ ".zip")).
  cbn. rewrite IH. by destruct s.
Qed.

Lemma normalize_step_plain allowAboveRoot stack seg :
  seg ≠ "" → seg ≠ "." → seg ≠ ".." →
  Path.normalize_step allowAboveRoot stack seg = seg :: stack.
Proof.
  intros H0 H1 H2. unfold Path.normalize_step.
  rewrite bool_decide_eq_false_2 by naive_solver.
  by rewrite bool_decide_eq_false_2.
Qed.

Lemma deploy_path_plain n :
  no_separator n = true → deploy_path this n = ".serverless/" +:+ n +:+ ".zip".
Proof.
  intros Hn. unfold deploy_path, getArtifactLocations. cbn [serverlessArtifact].
  assert (String.length (n +:+ ".zip") = String.length n + 4) as Hlen
    by apply length_app.
  assert (n +:+ ".zip" ≠ "") as H0 by (intros E; rewrite E in Hlen; cbn in Hlen; lia).
  assert (n +:+ ".zip" ≠ ".") as H1 by (intros E; rewrite E in Hlen; cbn in Hlen; lia).
  assert (n +:+ ".zip" ≠ "..") as H2 by (intros E; rewrite E in Hlen; cbn in Hlen; lia).
  unfold Path.join.
  rewrite filter_cons_True by done. rewrite filter_cons_True by done.
  rewrite filter_nil. cbn [Path.unsplit].
  change (".serverless" +:+ "/" +:+ n +:+ ".zip")
    with (".serverless/" +:+ n +:+ ".zip").
  unfold Path.normalize.
  rewrite bool_decide_eq_false_2 by done.
  change (Path.starts_with_slash (".serverless/" +:+ n +:+ ".zip")) with false.
  change (Path.ends_with_slash (".serverless/" +:+ n +:+ ".zip"))
    with (Path.ends_with_slash ((".serverless/" +:+ n) +:+ ".zip")).
  rewrite ends_with_slash_zip. cbn [negb].
  unfold Path.normalizeString.
  change (Path.split (".serverless/" +:+ n +:+ ".zip"))
    with (".serverless" :: Path.split (n +:+ ".zip")).
  rewrite split_no_separator by by apply no_separator_app.
  cbn [foldl]. rewrite !normalize_step_plain by done.
  change (Path.unsplit (reverse [n +:+ ".zip"; ".serverless"]))
    with (".serverless/" +:+ n +:+ ".zip").
  by rewrite bool_decide_eq_false_2.
Qed.

Lemma app_inv_tail (a b s : string) : a +:+ s = b +:+ s → a = b.
Proof.
  revert b. induction a as [|c a IH]; intros [|d b] E; [done|..].
  - apply (f_equal String.length) in E. rewrite !length_app in E. cbn in E. lia.
  - apply (f_equal String.length) in E. rewrite !length_app in E. cbn in E. lia.
  - change (String c (a +:+ s) = String d (b +:+ s)) in E.
    injection E as -> E. f_equal. by apply IH.
Qed.

Lemma deploy_path_inj n m :
  no_separator n = true → no_separator m = true →
  deploy_path this n = deploy_path this m → n = m.
Proof.
  intros Hn Hm. rewrite !deploy_path_plain by done.
  intros E. apply (String.app_inj ".serverless/") in E.
  by apply app_inv_tail in E.
Qed.

(** C1, amended: in Unified mode every processed function is bound to the
    deploy-stage path of the service; in Individual mode every processed
    function is bound to the deploy-stage path of its own name, and two
    functions whose distinct names hold no path separator are bound to
    distinct paths. *)
Theorem distribution_bindings w :
  (∀ a, a ∈ identities this w → is_Some (Fs.lookup (w_fs w) (build_path this a))) →
  (∀ n, n ∈ functionNames this → is_Some (service_functions (w_service w) !! n)) →
  ∃ w', copyExistingArtifacts this w = (Return tt, w')
    ∧ (individually w = false → ∀ n, n ∈ functionNames this →
         binding this w' n = Some (deploy_path this (service_name (w_service w))))
    ∧ (individually w = true → ∀ n, n ∈ functionNames this →
         binding this w' n = Some (deploy_path this n))
    ∧ (individually w = true → ∀ n m,
         n ∈ functionNames this → m ∈ functionNames this →
         no_separator n = true → no_separator m = true → n ≠ m →
         binding this w' n ≠ binding this w' m).
Proof.
  intros Hsrc Hfun.
  destruct (copyExistingArtifacts_binds w Hsrc Hfun) as (w' & Hrun & Hin & _).
  exists w'. split; [exact Hrun|]. unfold identity in Hin.
  split; [|split]; intros Hmode; rewrite Hmode in Hin; [done..|].
  intros n m Hn Hm Hpn Hpm Hne. rewrite !Hin by done.
  intros [= E]. by apply Hne, deploy_path_inj.
Qed.

(** C6: in Unified mode with the google provider the service receives an
    artifact binding equal to the deploy-stage path the functions are
    bound to, and the functions keep their bindings; with another
    provider, or in Individual mode, [service.package] is left as it
    was. *)
Theorem google_service_binding w :
  (∀ a, a ∈ identities this w → is_Some (Fs.lookup (w_fs w) (build_path this a))) →
  (∀ n, n ∈ functionNames this → is_Some (service_functions (w_service w) !! n)) →
  ∃ w', copyExistingArtifacts this w = (Return tt, w')
    ∧ (individually w = false → providerIsGoogle this = true →
         service_binding w' = Some (JStr (deploy_path this (service_name (w_service w))))
         ∧ ∀ n, n ∈ functionNames this →
             binding this w' n = Some (deploy_path this (service_name (w_service w))))
    ∧ (individually w = true ∨ providerIsGoogle this = false →
         service_package (w_service w') = service_package (w_service w)).
Proof.
  intros Hsrc Hfun.
  destruct (copyExistingArtifacts_binds w Hsrc Hfun) as (w' & Hrun & Hin & _ & Hpkg).
  exists w'. split; [exact Hrun|]. unfold identity in Hin. split.
  - intros Hmode Hgoogle. rewrite Hmode in Hin. rewrite Hmode, Hgoogle in Hpkg.
    split; [|done]. unfold service_binding. rewrite Hpkg. cbn.
    apply lookup_insert_eq.
  - intros [Hmode|Hgoogle]; [rewrite Hmode in Hpkg|rewrite Hgoogle in Hpkg]; [done|].
    by rewrite andb_false_r in Hpkg.
Qed.

(** C7, amended: the assignment pass runs after the copy pass, over the
    same list of names: the function selected by [-f], or else all node
    functions.  After the distribution every function of that list has
    exactly one binding, the deploy-stage path of its archive identity;
    the record of every other function is left as it was. *)
Theorem assignment_covers_processed w :
  (∀ a, a ∈ identities this w → is_Some (Fs.lookup (w_fs w) (build_path this a))) →
  (∀ n, n ∈ functionNames this → is_Some (service_functions (w_service w) !! n)) →
  ∃ w', copyExistingArtifacts this w = (Return tt, w')
    ∧ (∀ n, n ∈ functionNames this →
         binding this w' n = Some (deploy_path this (identity w n))
         ∧ ∀ p, binding this w' n = Some p → p = deploy_path this (identity w n))
    ∧ (∀ n, n ∉ functionNames this →
         service_functions (w_service w') !! n = service_functions (w_service w) !! n).
Proof.
  intros Hsrc Hfun.
  destruct (copyExistingArtifacts_binds w Hsrc Hfun) as (w' & Hrun & Hin & Hout & _).
  exists w'. split; [exact Hrun|]. split; [|exact Hout].
  intros n Hn. rewrite (Hin n Hn). split; [done|]. by intros p [= <-].
Qed.

(** The copy pass comes first: when the build-stage artifact of the first
    archive identity is missing, the run fails before any function is
    assigned. *)
Lemma copy_failure_precedes_assignment w a rest :
  identities this w = a :: rest →
  Fs.lookup (w_fs w) (build_path this a) = None →
  ∃ w', copyExistingArtifacts this w = (Throw (FsError "ENOENT" (build_path this a)), w')
      ∧ w_service w' = w_service w.
Proof.
  intros Hid Hmiss. unfold copyExistingArtifacts.
  erewrite bind_Return by apply copying_messages_run.
  erewrite bind_Return by reflexivity.
  erewrite bind_Return by reflexivity. cbn [w_service].
  exists (mkWorld (w_fs w) (w_unreadable w) (w_service w)
            (w_out w ++ copying_messages this)).
  split; [|reflexivity].
  erewrite bind_Throw; [reflexivity|].
  unfold copy_pass, identities, individually in *.
  destruct (truthy (individually_of (w_service w))).
  - rewrite Hid. cbn [forEach].
    erewrite bind_Throw; [reflexivity|].
    rewrite copyArtifactByName_run. cbn [w_fs]. by rewrite Hmiss.
  - injection Hid as <- <-.
    rewrite copyArtifactByName_run. cbn [w_fs]. by rewrite Hmiss.
Qed.
End Distribution.

Ltac members H :=
  repeat (apply elem_of_cons in H as [->|H]);
  [..|by apply elem_of_nil in H].

(** C1 as stated fails: the distinct names [a] and [./a] are bound to the
    same deploy-stage path, [.serverless/a.zip]. *)
Lemma distribution_stated_fails :
  ¬ Spec.distribution_stated Sample.dotted_names Sample.dotted_world.
Proof.
  intros (w' & Hrun & _ & _ & Hdistinct).
  destruct (copyExistingArtifacts_binds Sample.dotted_names Sample.dotted_world)
    as (w'' & Hrun' & Hin & _).
  { intros a Ha. change (a ∈ ["a"; "./a"]) in Ha. members Ha; by eexists. }
  { intros n Hn. change (n ∈ ["a"; "./a"]) in Hn. members Hn; by eexists. }
  rewrite Hrun in Hrun'. injection Hrun' as <-.
  apply (Hdistinct eq_refl "a" "./a"); [set_solver|set_solver|done|].
  rewrite !Hin by set_solver. reflexivity.
Qed.

Lemma distribution_bindings_witness :
  (∀ a, a ∈ Spec.identities Sample.new_host Sample.individual_world →
     is_Some (Fs.lookup (w_fs Sample.individual_world) (Spec.build_path Sample.new_host a)))
  ∧ (∀ n, n ∈ PackageModules.functionNames Sample.new_host →
       is_Some (service_functions (w_service Sample.individual_world) !! n))
  ∧ ∃ w', PackageModules.copyExistingArtifacts Sample.new_host Sample.individual_world
          = (Return tt, w')
      ∧ Spec.binding Sample.new_host w' "f1" = Some ".serverless/f1.zip"
      ∧ Spec.binding Sample.new_host w' "f2" = Some ".serverless/f2.zip"
      ∧ Spec.binding Sample.new_host w' "f1" ≠ Spec.binding Sample.new_host w' "f2".
Proof.
  assert (∀ a, a ∈ Spec.identities Sample.new_host Sample.individual_world →
     is_Some (Fs.lookup (w_fs Sample.individual_world) (Spec.build_path Sample.new_host a)))
    as Hsrc.
  { intros a Ha. change (a ∈ ["f1"; "f2"]) in Ha. members Ha; by eexists. }
  assert (∀ n, n ∈ PackageModules.functionNames Sample.new_host →
       is_Some (service_functions (w_service Sample.individual_world) !! n)) as Hfun.
  { intros n Hn. change (n ∈ ["f1"; "f2"]) in Hn. members Hn; by eexists. }
  split; [exact Hsrc|]. split; [exact Hfun|].
  destruct (distribution_bindings Sample.new_host Sample.individual_world Hsrc Hfun)
    as (w' & Hrun & _ & Hown & Hdistinct).
  exists w'. split; [exact Hrun|].
  split; [apply (Hown eq_refl); set_solver|].
  split; [apply (Hown eq_refl); set_solver|].
  apply (Hdistinct eq_refl); [set_solver|set_solver|reflexivity|reflexivity|discriminate].
Defined.

Lemma google_service_binding_witness :
  (∀ a, a ∈ Spec.identities Sample.google Sample.unified_world →
     is_Some (Fs.lookup (w_fs Sample.unified_world) (Spec.build_path Sample.google a)))
  ∧ (∀ n, n ∈ PackageModules.functionNames Sample.google →
       is_Some (service_functions (w_service Sample.unified_world) !! n))
  ∧ ∃ w', PackageModules.copyExistingArtifacts Sample.google Sample.unified_world
          = (Return tt, w')
      ∧ Spec.service_binding w' = Some (JStr ".serverless/svc.zip")
      ∧ Spec.binding Sample.google w' "f1" = Some ".serverless/svc.zip"
      ∧ Spec.binding Sample.google w' "f2" = Some ".serverless/svc.zip".
Proof.
  assert (∀ a, a ∈ Spec.identities Sample.google Sample.unified_world →
     is_Some (Fs.lookup (w_fs Sample.unified_world) (Spec.build_path Sample.google a)))
    as Hsrc.
  { intros a Ha. change (a ∈ ["svc"]) in Ha. members Ha; by eexists. }
  assert (∀ n, n ∈ PackageModules.functionNames Sample.google →
       is_Some (service_functions (w_service Sample.unified_world) !! n)) as Hfun.
  { intros n Hn. change (n ∈ ["f1"; "f2"]) in Hn. members Hn; by eexists. }
  split; [exact Hsrc|]. split; [exact Hfun|].
  destruct (google_service_binding Sample.google Sample.unified_world Hsrc Hfun)
    as (w' & Hrun & Hgoogle & _).
  destruct (Hgoogle eq_refl eq_refl) as [Hservice Hfuncs].
  exists w'. split; [exact Hrun|]. split; [exact Hservice|].
  split; apply Hfuncs; set_solver.
Defined.

(** C7 as stated fails: in a run restricted by [-f] to [f1], the
    assignment covers [f1] only and [f2] is left without a binding. *)
Lemma assignment_covers_all_stated_fails :
  ¬ Spec.assignment_covers_all_stated Sample.only_f1 Sample.individual_world.
Proof.
  intros (w' & Hrun & Hall).
  destruct (copyExistingArtifacts_binds Sample.only_f1 Sample.individual_world)
    as (w'' & Hrun' & _ & Hout & _).
  { intros a Ha. change (a ∈ ["f1"]) in Ha. members Ha; by eexists. }
  { intros n Hn. change (n ∈ ["f1"]) in Hn. members Hn; by eexists. }
  rewrite Hrun in Hrun'. injection Hrun' as <-.
  destruct (Hall "f2") as [p Hp]; [set_solver|].
  unfold Spec.binding in Hp. rewrite (Hout "f2") in Hp; [|set_solver].
  discriminate Hp.
Qed.

Lemma assignment_covers_processed_witness :
  (∀ a, a ∈ Spec.identities Sample.only_f1 Sample.individual_world →
     is_Some (Fs.lookup (w_fs Sample.individual_world) (Spec.build_path Sample.only_f1 a)))
  ∧ (∀ n, n ∈ PackageModules.functionNames Sample.only_f1 →
       is_Some (service_functions (w_service Sample.individual_world) !! n))
  ∧ ∃ w', PackageModules.copyExistingArtifacts Sample.only_f1 Sample.individual_world
          = (Return tt, w')
      ∧ Spec.binding Sample.only_f1 w' "f1" = Some ".serverless/f1.zip"
      ∧ service_functions (w_service w') !! "f2" = Some Sample.f2.
Proof.
  assert (∀ a, a ∈ Spec.identities Sample.only_f1 Sample.individual_world →
     is_Some (Fs.lookup (w_fs Sample.individual_world) (Spec.build_path Sample.only_f1 a)))
    as Hsrc.
  { intros a Ha. change (a ∈ ["f1"]) in Ha. members Ha; by eexists. }
  assert (∀ n, n ∈ PackageModules.functionNames Sample.only_f1 →
       is_Some (service_functions (w_service Sample.individual_world) !! n)) as Hfun.
  { intros n Hn. change (n ∈ ["f1"]) in Hn. members Hn; by eexists. }
  split; [exact Hsrc|]. split; [exact Hfun|].
  destruct (assignment_covers_processed Sample.only_f1 Sample.individual_world Hsrc Hfun)
    as (w' & Hrun & Hin & Hout).
  exists w'. split; [exact Hrun|].
  split; [apply (Hin "f1"); set_solver|].
  rewrite (Hout "f2"); [reflexivity|set_solver].
Defined.

(** ** Enumeration and exclusion of the files *)

Section ListFiles.
Import PackageModules Spec.
Variable this : Plugin.

Lemma set_fs_id w : set_fs (w_fs w) w = w.
Proof. by destruct w. Qed.

Lemma lookup_remove path fs q :
  Fs.lookup (Fs.remove path fs) q
  = if bool_decide (q = path) then None else Fs.lookup fs q.
Proof.
  unfold Fs.remove. induction fs as [|[k c] fs IH]; [by case_bool_decide|].
  destruct (decide (k = path)) as [->|Hk].
  - rewrite filter_cons_False by (cbn; naive_solver). rewrite IH.
    cbn [Fs.lookup]. destruct (decide (q = path)) as [->|Hq].
    + by rewrite !bool_decide_eq_true_2.
    + rewrite !bool_decide_eq_false_2; [done..|congruence|done].
  - rewrite filter_cons_True by done. cbn [Fs.lookup]. rewrite IH.
    destruct (decide (k = q)) as [->|Hkq].
    + rewrite bool_decide_eq_true_2, bool_decide_eq_false_2 by done. done.
    + by rewrite (bool_decide_eq_false_2 (k = q)).
Qed.

Lemma remove_absent path fs : Fs.lookup fs path = None → Fs.remove path fs = fs.
Proof.
  unfold Fs.remove. induction fs as [|[k c] fs IH]; [done|].
  cbn [Fs.lookup]. case_bool_decide as Hk; [done|]. intros Hl.
  rewrite filter_cons_True by done. by rewrite IH.
Qed.

(** Deleting a file if it exists never fails. *)
Lemma unlink_if_exists_run path w :
  (let* found := Fs.existsSync path in when found (Fs.unlinkSync path)) w
  = (Return tt, set_fs (Fs.remove path (w_fs w)) w).
Proof.
  cbv [bind Fs.existsSync Fs.unlinkSync get_fs ret when put_fs set_fs throw].
  destruct (Fs.lookup (w_fs w) path) as [c|] eqn:Hl.
  - rewrite bool_decide_eq_true_2 by eauto. cbv beta. by rewrite Hl.
  - rewrite bool_decide_eq_false_2 by (by intros [? ?]).
    rewrite remove_absent by done. by destruct w.
Qed.

(** The loop of [zip] computes the filter: with fuel for the elements
    still to visit it returns the files before [index] and the files from
    [index] on that the pattern does not match, counts the others and
    deletes them. *)
Lemma exclude_loop_run matches directory fuel : ∀ index files n w,
  length files - index ≤ fuel →
  exclude_loop fuel matches directory index files n w
  = (Return (take index files ++ filter (λ r, matches r = false) (drop index files),
             n + length (filter (λ r, matches r = true) (drop index files))),
     set_fs (delete_all directory
               (filter (λ r, matches r = true) (drop index files)) (w_fs w)) w).
Proof.
  induction fuel as [|fuel IH]; intros index files n w Hfuel.
  - assert (length files ≤ index) as Hge by lia.
    cbn. rewrite (lookup_ge_None_2 _ _ Hge), take_ge, drop_ge by done.
    cbn. rewrite app_nil_r, Nat.add_0_r. unfold ret. by rewrite set_fs_id.
  - cbn. destruct (files !! index) as [file|] eqn:Hfile.
    + rewrite (drop_S _ _ _ Hfile).
      destruct (matches file) eqn:Hm.
      * erewrite bind_Return by apply unlink_if_exists_run.
        rewrite IH by (rewrite length_delete by eauto; lia).
        rewrite delete_take_drop.
        assert (length (take index files) = index) as Hlen.
        { rewrite length_take. apply lookup_lt_Some in Hfile. lia. }
        rewrite take_app_length', drop_app_length' by done.
        rewrite (filter_cons_False (λ r, matches r = false)) by (cbn; congruence).
        rewrite (filter_cons_True (λ r, matches r = true)) by done.
        cbn [length]. replace (S n + length (filter (λ r, matches r = true) (drop (S index) files)))
          with (n + S (length (filter (λ r, matches r = true) (drop (S index) files)))) by lia.
        reflexivity.
      * rewrite IH by lia.
        rewrite (take_S_r _ _ _ Hfile), <- app_assoc.
        rewrite (filter_cons_True (λ r, matches r = false)) by done.
        rewrite (filter_cons_False (λ r, matches r = true)) by (cbn; congruence).
        done.
    + apply lookup_ge_None_1 in Hfile. rewrite take_ge, drop_ge by done.
      cbn. rewrite app_nil_r, Nat.add_0_r. unfold ret. by rewrite set_fs_id.
Qed.

(** [listFiles] returns the filtered file set and deletes the excluded
    files; it never fails. *)
Lemma listFiles_run directory w :
  listFiles this directory w
  = (Return (filtered this directory (w_fs w)),
     mkWorld (delete_all directory (excluded this directory (w_fs w)) (w_fs w))
       (w_unreadable w) (w_service w)
       (w_out w ++ exclusion_messages this directory (w_fs w))).
Proof.
  unfold listFiles, exclusion_messages, filtered, excluded.
  erewrite bind_Return by reflexivity. fold (glob_names directory (w_fs w)).
  destruct (excludeRegex this) as [matches|].
  - erewrite bind_Return by (apply exclude_loop_run; lia).
    cbn [take drop app Nat.add]. unfold log_verbose, bind, emit, when, ret, set_fs.
    destruct (this_log this), (options_verbose this); cbn; rewrite ?app_nil_r; done.
  - cbn. unfold ret. rewrite app_nil_r. by destruct w.
Qed.

Lemma filter_ext_in {A} (P Q : A → Prop)
    `{!∀ x, Decision (P x), !∀ x, Decision (Q x)} (l : list A) :
  (∀ x, x ∈ l → P x ↔ Q x) → filter P l = filter Q l.
Proof.
  induction l as [|a l IH]; intros Hiff; [done|].
  assert (filter P l = filter Q l) as Hl by (apply IH; intros; apply Hiff; set_solver).
  destruct (decide (P a)) as [Ha|Ha].
  - rewrite !filter_cons_True; [by rewrite Hl|by apply Hiff; [set_solver|]|done].
  - rewrite !filter_cons_False; [done| |done]. rewrite <- Hiff; [done|set_solver].
Qed.

Lemma filter_fmap_comm {A B} (f : A → B) (P : B → Prop)
    `{!∀ y, Decision (P y)} (l : list A) :
  filter P (f <$> l) = f <$> filter (λ x, P (f x)) l.
Proof.
  induction l as [|a l IH]; [done|]. rewrite fmap_cons.
  destruct (decide (P (f a))).
  - rewrite !filter_cons_True by done. by rewrite fmap_cons, IH.
  - rewrite !filter_cons_False by done. done.
Qed.

Lemma string_app_assoc (a b c : string) : (a +:+ b) +:+ c = a +:+ b +:+ c.
Proof.
  induction a as [|x a IH]; [done|].
  change (String x ((a +:+ b) +:+ c) = String x (a +:+ b +:+ c)). by rewrite IH.
Qed.

Lemma strip_prefix_Some pre s r : Fs.strip_prefix pre s = Some r ↔ s = pre +:+ r.
Proof.
  revert s. induction pre as [|a pre IH]; intros s; cbn.
  - change ("" +:+ r) with r. naive_solver.
  - change (String a pre +:+ r) with (String a (pre +:+ r)).
    destruct s as [|b s]; [naive_solver|].
    destruct (Ascii.eqb_spec a b) as [->|Hab].
    + rewrite IH. naive_solver.
    + naive_solver.
Qed.

Lemma relative_Some directory k r :
  Fs.relative directory k = Some r ↔ r ≠ "" ∧ k = directory +:+ "/" +:+ r.
Proof.
  unfold Fs.relative. rewrite <- string_app_assoc.
  destruct (Fs.strip_prefix _ k) as [r'|] eqn:Hs.
  - apply strip_prefix_Some in Hs. subst k. case_bool_decide.
    + subst r'. split; [done|]. intros [Hr E]. apply String.app_inj in E. congruence.
    + split; [by intros [= <-]|]. intros [Hr E]. apply String.app_inj in E. congruence.
  - split; [done|]. intros [Hr E]. apply strip_prefix_Some in E. congruence.
Qed.

Lemma elem_of_walk directory fs k r c :
  (k, r, c) ∈ Fs.walk directory fs ↔ (k, c) ∈ fs ∧ Fs.relative directory k = Some r.
Proof.
  unfold Fs.walk. rewrite list_elem_of_omap. split.
  - intros ([k' c'] & Hin & Hsome). cbn in Hsome.
    destruct (Fs.relative directory k') as [r'|] eqn:Hr; [|done].
    by injection Hsome as -> -> ->.
  - intros [Hin Hr]. exists (k, c). split; [done|]. cbn. by rewrite Hr.
Qed.

Lemma walk_filter directory (P : string * content → Prop)
    `{!∀ kc, Decision (P kc)} fs :
  Fs.walk directory (filter P fs)
  = filter (λ e, P (e.1.1, e.2)) (Fs.walk directory fs).
Proof.
  unfold Fs.walk. induction fs as [|[k c] fs IH]; [done|].
  change (omap ?f ((k, c) :: fs)) with
    (match f (k, c) with Some y => y :: omap f fs | None => omap f fs end).
  destruct (decide (P (k, c))) as [HP|HP].
  - rewrite filter_cons_True by done.
    change (omap ?f ((k, c) :: ?l)) with
      (match f (k, c) with Some y => y :: omap f l | None => omap f l end).
    cbn [fst snd]. destruct (Fs.relative directory k) as [r|]; cbn [fmap option_fmap option_map].
    + rewrite filter_cons_True by done. by rewrite IH.
    + done.
  - rewrite filter_cons_False by done.
    cbn [fst snd]. destruct (Fs.relative directory k) as [r|]; cbn [fmap option_fmap option_map].
    + rewrite filter_cons_False by done. done.
    + done.
Qed.

Lemma delete_all_filter directory names : ∀ fs,
  delete_all directory names fs
  = filter (λ kc, kc.1 ∉ (λ r, Path.join [directory; r]) <$> names) fs.
Proof.
  unfold delete_all. induction names as [|r names IH]; intros fs; cbn [foldl].
  - symmetry. rewrite fmap_nil. clear. induction fs as [|kc fs IH]; [done|].
    rewrite filter_cons_True by set_solver. by rewrite IH.
  - rewrite IH. unfold Fs.remove. rewrite list_filter_filter.
    apply list_filter_iff. intros kc. rewrite fmap_cons, not_elem_of_cons. naive_solver.
Qed.

(** The path [zip] deletes for a file the walk found is the path the file
    is held under. *)
Lemma join_relative directory k r :
  directory ≠ "" → Path.normalize k = k → Fs.relative directory k = Some r →
  Path.join [directory; r] = k.
Proof.
  intros Hdir Hnorm [Hr ->]%relative_Some. unfold Path.join.
  rewrite !filter_cons_True by done. rewrite filter_nil.
  exact Hnorm.
Qed.

(** After the exclusion the directory holds the filtered file set. *)
Lemma walk_delete_excluded directory fs matches :
  fs_normalized fs → directory ≠ "" → excludeRegex this = Some matches →
  Fs.walk directory (delete_all directory (excluded this directory fs) fs)
  = filter (λ e, matches e.1.2 = false) (Fs.walk directory fs).
Proof.
  intros Hwf Hdir Hre. rewrite delete_all_filter, walk_filter.
  apply filter_ext_in. intros [[k r] c] [Hin Hrel]%elem_of_walk. cbn.
  unfold excluded, glob_names. rewrite Hre.
  rewrite list_elem_of_fmap. split.
  - intros Hnot. destruct (matches r) eqn:Hm; [|done]. exfalso. apply Hnot.
    exists r. split; [symmetry; by eapply join_relative, Hrel; [|eapply Hwf]|].
    apply list_elem_of_filter. split; [done|].
    apply list_elem_of_fmap. exists (k, r, c). split; [done|by apply elem_of_walk].
  - intros Hm (r' & Hk & [Hm' Hr']%list_elem_of_filter).
    apply list_elem_of_fmap in Hr' as ([[k' r''] c'] & -> & [Hin' Hrel']%elem_of_walk).
    cbn in *. rewrite (join_relative directory k' r'') in Hk by eauto.
    subst k'. congruence.
Qed.

Lemma filtered_after_exclusion directory fs :
  fs_normalized fs → directory ≠ "" →
  glob_names directory (delete_all directory (excluded this directory fs) fs)
  = filtered this directory fs.
Proof.
  intros Hwf Hdir. unfold filtered, glob_names.
  destruct (excludeRegex this) as [matches|] eqn:Hre.
  - rewrite (walk_delete_excluded _ _ matches) by done.
    by rewrite filter_fmap_comm.
  - unfold excluded. by rewrite Hre.
Qed.
End ListFiles.

(** ** Idempotence of the exclusion, and the empty file set *)

Section Exclusion.
Import PackageModules Spec.
Variable this : Plugin.

Lemma filter_none {A} (P : A → Prop) `{!∀ x, Decision (P x)} (l : list A) :
  (∀ x, x ∈ l → ¬ P x) → filter P l = [].
Proof.
  induction l as [|a l IH]; intros Hnone; [done|].
  rewrite filter_cons_False by (apply Hnone; set_solver).
  apply IH. intros x Hx. apply Hnone. set_solver.
Qed.

Lemma lookup_delete_all directory names : ∀ fs p c,
  Fs.lookup (delete_all directory names fs) p = Some c → Fs.lookup fs p = Some c.
Proof.
  unfold delete_all. induction names as [|r names IH]; intros fs p c; cbn [foldl]; [done|].
  intros Hl%IH. rewrite lookup_remove in Hl. by case_bool_decide.
Qed.

Lemma fs_normalized_delete_all directory names fs :
  fs_normalized fs → fs_normalized (delete_all directory names fs).
Proof.
  intros Hwf k c. rewrite delete_all_filter. intros [_ Hin]%list_elem_of_filter.
  by eapply Hwf.
Qed.

Lemma delete_all_twice directory names fs :
  delete_all directory names (delete_all directory names fs)
  = delete_all directory names fs.
Proof. rewrite !delete_all_filter. by apply list_filter_filter_l. Qed.

(** C8: on a normalised file system the exclusion is idempotent: a second
    listing of the directory returns the file set of the first and leaves
    the disk as the first left it; and a second run of the loop over the
    files the first run has already deleted raises no error, returns the
    same file set and changes nothing on disk. *)
Theorem exclusion_idempotent directory w :
  fs_normalized (w_fs w) → directory ≠ "" →
  ∃ files w1 w2,
    listFiles this directory w = (Return files, w1)
    ∧ listFiles this directory w1 = (Return files, w2)
    ∧ w_fs w2 = w_fs w1
    ∧ ∀ matches, excludeRegex this = Some matches →
        let stale := glob_names directory (w_fs w) in
        ∃ n w3, exclude_loop (length stale) matches directory 0 stale 0 w1
                = (Return (files, n), w3)
              ∧ w_fs w3 = w_fs w1.
Proof.
  intros Hwf Hdir. do 3 eexists.
  split; [apply listFiles_run|]. split; [|split].
  - rewrite listFiles_run. cbn [w_fs w_unreadable w_service w_out].
    f_equal. f_equal.
    unfold filtered at 1. rewrite filtered_after_exclusion by done.
    unfold filtered. destruct (excludeRegex this); [|done].
    by apply list_filter_filter_l.
  - cbn [w_fs].
    replace (excluded this directory
               (delete_all directory (excluded this directory (w_fs w)) (w_fs w)))
      with (@nil string); [done|].
    unfold excluded at 1. rewrite filtered_after_exclusion by done.
    unfold filtered. destruct (excludeRegex this); [|done].
    symmetry. apply filter_none. intros r [Hr _]%list_elem_of_filter. congruence.
  - intros matches Hre stale. do 2 eexists.
    split.
    + rewrite exclude_loop_run by lia. cbn [take drop app Nat.add].
      unfold filtered. rewrite Hre. reflexivity.
    + cbn [w_fs set_fs]. unfold excluded. rewrite Hre. apply delete_all_twice.
Qed.

End Exclusion.

Lemma compiled_fs_normalized : Spec.fs_normalized Sample.compiled_fs.
Proof.
  intros k c Hin. unfold Sample.compiled_fs in Hin.
  repeat (apply elem_of_cons in Hin as [[= -> ->]|Hin]);
    [reflexivity..|by apply elem_of_nil in Hin].
Qed.

Lemma exclusion_idempotent_witness :
  Spec.fs_normalized (w_fs Sample.compiled_world)
  ∧ ".webpack/service" ≠ ""
  ∧ ∃ w1 w2,
      PackageModules.listFiles Sample.excluding_maps ".webpack/service" Sample.compiled_world
      = (Return ["handler.js"; "lib/util.js"], w1)
      ∧ PackageModules.listFiles Sample.excluding_maps ".webpack/service" w1
        = (Return ["handler.js"; "lib/util.js"], w2)
      ∧ w_fs w2 = w_fs w1.
Proof.
  split; [exact compiled_fs_normalized|]. split; [discriminate|].
  destruct (exclusion_idempotent Sample.excluding_maps ".webpack/service"
              Sample.compiled_world compiled_fs_normalized)
    as (files & w1 & w2 & Hfirst & Hsecond & Hdisk & _); [discriminate|].
  assert (files = ["handler.js"; "lib/util.js"]) as ->.
  { vm_compute in Hfirst. by injection Hfirst as <- _. }
  by exists w1, w2.
Defined.



(** ** The archive builder *)

Section Archive.
Import PackageModules Spec.
Variable this : Plugin.


Lemma createWriteStream_run path w :
  createWriteStream path w
  = (Return tt, set_fs (Fs.write path (Zip false []) (w_fs w)) w).
Proof. reflexivity. Qed.

Lemma stream_write_run path e b es w :
  Fs.lookup (w_fs w) path = Some (Zip b es) →
  stream_write path e w
  = (Return tt, set_fs (Fs.write path (Zip b (es ++ [e])) (w_fs w)) w).
Proof. intros Hl. cbv [stream_write bind get_fs]. by rewrite Hl. Qed.

Lemma stream_close_run path b es w :
  Fs.lookup (w_fs w) path = Some (Zip b es) →
  stream_close path w
  = (Return tt, set_fs (Fs.write path (Zip true es) (w_fs w)) w).
Proof. intros Hl. cbv [stream_close bind get_fs]. by rewrite Hl. Qed.

Lemma progress_run total processed w :
  ∃ out, when (total <=? processed)
           (emit (ConsoleLog (newline +:+ pretty processed +:+ "/" +:+ pretty total
                              +:+ " files processed"))) w
         = (Return tt, mkWorld (w_fs w) (w_unreadable w) (w_service w) out).
Proof.
  unfold when, emit, ret. destruct (total <=? processed); [by eexists|].
  exists (w_out w). by destruct w.
Qed.

(** The entries are appended in the order of the walk; the archive stops
    at the first file that cannot be read, and what it has written stays
    in the stream. *)
Lemma append_entries_outcome artifact total todo : ∀ processed b es w,
  Fs.lookup (w_fs w) artifact = Some (Zip b es) →
  ∃ w' es',
    Fs.lookup (w_fs w') artifact = Some (Zip b (es ++ es'))
    ∧ (∀ q, q ≠ artifact → Fs.lookup (w_fs w') q = Fs.lookup (w_fs w) q)
    ∧ ((append_entries artifact total processed todo w = (Return tt, w')
        ∧ es' = (λ e : string * string * content, (e.1.2, e.2)) <$> todo
        ∧ ∀ e, e ∈ todo → e.1.1 ∉ w_unreadable w)
       ∨ (∃ path, append_entries artifact total processed todo w
                  = (Throw (ArchiverError path), w')
                ∧ path ∈ w_unreadable w
                ∧ ∃ name c, (path, name, c) ∈ todo)).
Proof.
  induction todo as [|[[path name] c] todo IH]; intros processed b es w Hl.
  - exists w, []. rewrite app_nil_r. split; [done|]. split; [done|].
    left. split; [done|]. split; [done|]. set_solver.
  - cbn [append_entries]. erewrite bind_Return by reflexivity.
    destruct (decide (path ∈ w_unreadable w)) as [Hun|Hre].
    + rewrite bool_decide_eq_true_2 by done.
      exists w, []. rewrite app_nil_r. split; [done|]. split; [done|].
      right. exists path. split; [done|]. split; [done|].
      exists name, c. set_solver.
    + rewrite bool_decide_eq_false_2 by done.
      erewrite bind_Return by (by apply stream_write_run).
      destruct (progress_run total (S processed)
                  (set_fs (Fs.write artifact (Zip b (es ++ [(name, c)])) (w_fs w)) w))
        as [out Hprogress].
      cbn [set_fs w_fs w_unreadable w_service] in Hprogress.
      erewrite bind_Return by exact Hprogress.
      destruct (IH (S processed) b (es ++ [(name, c)])
                  (mkWorld (Fs.write artifact (Zip b (es ++ [(name, c)])) (w_fs w))
                     (w_unreadable w) (w_service w) out))
        as (w' & es' & Hl' & Hframe & Hcase).
      { cbn [w_fs]. rewrite lookup_write. by rewrite bool_decide_eq_true_2. }
      exists w', ((name, c) :: es').
      split; [by rewrite Hl', <- app_assoc|]. split.
      { intros q Hq. rewrite Hframe by done. cbn [w_fs set_fs]. rewrite lookup_write.
        by rewrite bool_decide_eq_false_2. }
      destruct Hcase as [(Hrun & -> & Hall)|(p & Hrun & Hp & n' & c' & Hin)].
      * left. split; [exact Hrun|]. split; [done|].
        intros e [->|He]%elem_of_cons; [done|by apply Hall].
      * right. exists p. split; [done|]. split; [done|].
        exists n', c'. set_solver.
Qed.

(** A run of [serverlessZip]: either every file below the directory is
    read and the finalised archive is at the output path when the path is
    returned, or a file cannot be read, the error is raised and the stream
    opened at the output path is left as it is, not finalised. *)
Lemma serverlessZip_run artifact directory files w :
  let opened := Fs.write artifact (Zip false []) (w_fs w) in
  ∃ w' es,
    (∀ q, q ≠ artifact → Fs.lookup (w_fs w') q = Fs.lookup (w_fs w) q)
    ∧ ((serverlessZip this artifact directory files w = (Return artifact, w')
        ∧ Fs.lookup (w_fs w') artifact = Some (Zip true es)
        ∧ es = entries_of directory opened
        ∧ ∀ e, e ∈ Fs.walk directory opened → e.1.1 ∉ w_unreadable w)
       ∨ (∃ path, serverlessZip this artifact directory files w
                  = (Throw (ArchiverError path), w')
                ∧ path ∈ w_unreadable w
                ∧ (∃ name c, (path, name, c) ∈ Fs.walk directory opened)
                ∧ Fs.lookup (w_fs w') artifact = Some (Zip false es))).
Proof.
  intros opened. unfold serverlessZip.
  erewrite bind_Return by apply createWriteStream_run. cbv zeta.
  erewrite bind_Return by reflexivity. cbn [w_fs set_fs]. fold opened.
  destruct (append_entries_outcome artifact (length files) (Fs.walk directory opened)
              0 false [] (set_fs opened w))
    as (w' & es & Hl & Hframe & Hcase).
  { cbn [w_fs set_fs]. subst opened. rewrite lookup_write.
    by rewrite bool_decide_eq_true_2. }
  assert (∀ q, q ≠ artifact → Fs.lookup (w_fs w') q = Fs.lookup (w_fs w) q) as Hframe'.
  { intros q Hq. rewrite Hframe by done. cbn [w_fs set_fs]. subst opened.
    rewrite lookup_write. by rewrite bool_decide_eq_false_2. }
  cbn [app] in Hl.
  destruct Hcase as [(Hrun & -> & Hall)|(p & Hrun & Hp & Hin)].
  - exists (set_fs (Fs.write artifact (Zip true (entries_of directory opened)) (w_fs w')) w'),
      (entries_of directory opened).
    split.
    { intros q Hq. cbn [w_fs set_fs]. rewrite lookup_write.
      rewrite bool_decide_eq_false_2 by done. by apply Hframe'. }
    left. split; [|split; [|done]].
    + erewrite bind_Return by exact Hrun.
      erewrite bind_Return by (by eapply stream_close_run). done.
    + cbn [w_fs set_fs]. rewrite lookup_write. by rewrite bool_decide_eq_true_2.
  - exists w', es. split; [exact Hframe'|]. right. exists p.
    split; [by erewrite bind_Throw by exact Hrun|]. done.
Qed.



End Archive.



(** * Further properties of the code *)

(** ** The factory *)

(** X1: a call of [get] that fails was made with an identifier other than
    the two registered ones, and the error carries that identifier as it
    was given; the failure is logged once, on the channel the host has, and
    neither the disk nor the service is touched. *)
Theorem get_failure_carries_id npm yarn this id e w w' :
  Packagers.get npm yarn this id w = (Throw e, w') →
  e = ServerlessError ("Could not find packager '" +:+ id +:+ "'")
  ∧ id ≠ "npm" ∧ id ≠ "yarn"
  ∧ w_fs w' = w_fs w ∧ w_service w' = w_service w
  ∧ w_out w'
    = w_out w ++
      [if this_log this
       then LogError ("Could not find packager " +:+ Packagers.dquote +:+ id
                      +:+ Packagers.dquote)
       else CliLog ("ERROR: Could not find packager '" +:+ id +:+ "'")].
Proof.
  intros Hrun.
  assert (id ≠ "npm") as Hn by (intros ->; by rewrite get_npm in Hrun).
  assert (id ≠ "yarn") as Hy by (intros ->; by rewrite get_yarn in Hrun).
  revert Hrun. unfold Packagers.get.
  destruct (Lodash.has (Packagers.registeredPackagers npm yarn) id); cbn [negb];
    [discriminate|].
  unfold bind, emit, throw. destruct (this_log this); by intros [= <- <-].
Qed.

Lemma get_failure_carries_id_witness :
  ∃ w', Packagers.get JUndefined JUndefined Sample.old_host "pnpm" Sample.unified_world
        = (Throw (ServerlessError "Could not find packager 'pnpm'"), w')
    ∧ w_out w' = [CliLog "ERROR: Could not find packager 'pnpm'"].
Proof.
  exists (Packagers.get JUndefined JUndefined Sample.old_host "pnpm"
            Sample.unified_world).2.
  split; [reflexivity|].
  by destruct (get_failure_carries_id JUndefined JUndefined Sample.old_host "pnpm"
                 (ServerlessError "Could not find packager 'pnpm'")
                 Sample.unified_world
                 (Packagers.get JUndefined JUndefined Sample.old_host "pnpm"
                    Sample.unified_world).2 eq_refl) as (_ & _ & _ & _ & _ & ->).
Defined.

(** X2: [get] never answers with the descriptor of a packager under an
    identifier other than its own: a result is [npm] for [npm], [yarn] for
    [yarn] and [undefined] for anything else, and a call that returns has
    logged nothing and changed nothing. *)
Theorem get_returns_own_descriptor npm yarn this id v w w' :
  Packagers.get npm yarn this id w = (Return v, w') →
  w' = w
  ∧ ((id = "npm" ∧ v = npm) ∨ (id = "yarn" ∧ v = yarn)
     ∨ (id ≠ "npm" ∧ id ≠ "yarn" ∧ v = JUndefined)).
Proof.
  unfold Packagers.get.
  destruct (Lodash.has (Packagers.registeredPackagers npm yarn) id); cbn [negb].
  - intros [= <- <-]. split; [done|]. cbn.
    destruct (decide ("npm" = id)) as [<-|Hn].
    { left. by rewrite bool_decide_eq_true_2. }
    rewrite (bool_decide_eq_false_2 ("npm" = id)) by done.
    destruct (decide ("yarn" = id)) as [<-|Hy].
    { right. left. by rewrite bool_decide_eq_true_2. }
    rewrite (bool_decide_eq_false_2 ("yarn" = id)) by done.
    right. right. naive_solver.
  - unfold bind, emit, throw. by destruct (this_log this).
Qed.

Lemma get_returns_own_descriptor_witness :
  Packagers.get (JStr "NPM") (JStr "Yarn") Sample.new_host "yarn" Sample.unified_world
  = (Return (JStr "Yarn"), Sample.unified_world)
  ∧ ("yarn" = "yarn" ∧ JStr "Yarn" = JStr "Yarn").
Proof.
  split; [reflexivity|].
  destruct (get_returns_own_descriptor (JStr "NPM") (JStr "Yarn") Sample.new_host "yarn"
              (JStr "Yarn") Sample.unified_world Sample.unified_world eq_refl)
    as [_ [[_ Hv]|[Hy|(_ & Hy & _)]]]; [discriminate|exact Hy|done].
Defined.

(** ** The version gate and the assignment *)

Section AssignmentFacts.
Import PackageModules Spec.
Variable this : Plugin.

(** X3: the old shape is chosen exactly for the versions that precede
    1.18.0 in the order of [semver]: a smaller major, minor or patch
    number, or a pre-release of 1.18.0 itself. *)
Theorem version_gate_boundary :
  below_threshold this = true ↔
  let v := serverless_version this in
  (Semver.major v < 1
   ∨ (Semver.major v = 1 ∧ Semver.minor v < 18)
   ∨ (Semver.major v = 1 ∧ Semver.minor v = 18 ∧ Semver.patch v = 0
      ∧ Semver.prerelease v ≠ []))%N.
Proof.
  unfold below_threshold, Semver.lt, Semver.compare, Semver.compareMain,
    Semver.comparePre, v1_18_0.
  destruct (serverless_version this) as [ma mi pa pre]. cbn.
  destruct (N.compare_spec ma 1) as [Ha|Ha|Ha],
    (N.compare_spec mi 18) as [Hb|Hb|Hb],
    (N.compare_spec pa 0) as [Hc|Hc|Hc],
    pre as [|x pre]; cbn; split; intros Hx; try done; try lia;
    try (destruct Hx as [Hx|[Hx|Hx]]; try lia; naive_solver lia);
    try naive_solver lia.
Qed.

Lemma assigned_overwrites p1 p2 f :
  assigned this p2 (assigned this p1 f) = assigned this p2 f.
Proof.
  unfold assigned. destruct (below_threshold this); cbn; [|done].
  by rewrite insert_insert_eq.
Qed.

(** X4: an assignment overwrites the previous one: assigning a path and
    then another leaves the service as assigning the second alone does, in
    either shape, and neither touches the disk. *)
Theorem setArtifactPath_overwrites funcName p1 p2 w :
  let w1 := (setArtifactPath this funcName funcName p1 w).2 in
  let w2 := (setArtifactPath this funcName funcName p2 w1).2 in
  w_service w2 = w_service (setArtifactPath this funcName funcName p2 w).2
  ∧ w_fs w2 = w_fs w.
Proof.
  cbv zeta. rewrite !setArtifactPath_run. cbn. split; [|done].
  f_equal. rewrite alter_alter_eq. apply alter_ext.
  intros f _. apply assigned_overwrites.
Qed.
End AssignmentFacts.

(** ** Copying one artifact *)

Section CopyFacts.
Import PackageModules Spec.
Variable this : Plugin.

Lemma replace_absent path c fs :
  Fs.lookup fs path = None →
  (λ kc : string * content, if bool_decide (kc.1 = path) then (path, c) else kc) <$> fs = fs.
Proof.
  induction fs as [|[k c1] fs IH]; [done|]. cbn [Fs.lookup].
  case_bool_decide as Hk; [done|]. intros Hl.
  rewrite fmap_cons, IH by done. cbn [fst].
  by rewrite bool_decide_eq_false_2.
Qed.

Lemma write_write path c fs :
  Fs.write path c (Fs.write path c fs) = Fs.write path c fs.
Proof.
  assert (Fs.lookup (Fs.write path c fs) path = Some c) as Hl.
  { rewrite lookup_write. by rewrite bool_decide_eq_true_2. }
  unfold Fs.write at 1. rewrite Hl. unfold Fs.write.
  destruct (Fs.lookup fs path) as [c0|] eqn:Hfs.
  - rewrite <- list_fmap_compose. apply list_fmap_ext. intros i [k c1] _. cbn.
    destruct (decide (k = path)) as [->|Hk].
    + rewrite (bool_decide_eq_true_2 (path = path)) by done. cbn.
      by rewrite bool_decide_eq_true_2.
    + rewrite (bool_decide_eq_false_2 (k = path)) by done. cbn.
      by rewrite bool_decide_eq_false_2.
  - rewrite fmap_app, replace_absent by done. cbn.
    by rewrite bool_decide_eq_true_2.
Qed.

(** X5: a copy, not a move: when the build-stage artifact exists,
    [copyArtifactByName] succeeds, the deploy-stage path then holds the
    contents of the artifact, the build-stage path still holds them, every
    other file is as it was and the service is not touched. *)
Theorem copyArtifactByName_copies a c w :
  Fs.lookup (w_fs w) (build_path this a) = Some c →
  ∃ w', copyArtifactByName this a w = (Return tt, w')
    ∧ Fs.lookup (w_fs w') (deploy_path this a) = Some c
    ∧ Fs.lookup (w_fs w') (build_path this a) = Some c
    ∧ (∀ p, p ≠ deploy_path this a → Fs.lookup (w_fs w') p = Fs.lookup (w_fs w) p)
    ∧ w_service w' = w_service w.
Proof.
  intros Hc. rewrite copyArtifactByName_run, Hc. eexists. split; [done|].
  cbn [w_fs w_service]. rewrite !lookup_write.
  split; [by rewrite bool_decide_eq_true_2|].
  split; [by case_bool_decide|]. split; [|done].
  intros p Hp. rewrite lookup_write. by rewrite bool_decide_eq_false_2.
Qed.

(** X6: copying an artifact again changes nothing: a second
    [copyArtifactByName] after a successful one succeeds and leaves the
    state exactly as the first left it. *)
Theorem copyArtifactByName_idempotent a w w1 :
  copyArtifactByName this a w = (Return tt, w1) →
  copyArtifactByName this a w1 = (Return tt, w1).
Proof.
  rewrite copyArtifactByName_run.
  destruct (Fs.lookup (w_fs w) (build_path this a)) as [c|] eqn:Hc; [|done].
  intros [= <-]. rewrite copyArtifactByName_run. cbn [w_fs w_unreadable w_service w_out].
  rewrite lookup_write.
  assert ((if bool_decide (deploy_path this a = build_path this a)
           then Some c else Fs.lookup (w_fs w) (build_path this a)) = Some c) as ->
    by by case_bool_decide.
  by rewrite write_write.
Qed.
End CopyFacts.

Lemma copyArtifactByName_copies_witness :
  Fs.lookup (w_fs Sample.unified_world) (Spec.build_path Sample.new_host "svc")
  = Some (Zip true [("handler.js", Data "h")])
  ∧ ∃ w', PackageModules.copyArtifactByName Sample.new_host "svc" Sample.unified_world
          = (Return tt, w')
      ∧ Fs.lookup (w_fs w') ".serverless/svc.zip" = Some (Zip true [("handler.js", Data "h")])
      ∧ Fs.lookup (w_fs w') ".webpack/svc.zip" = Some (Zip true [("handler.js", Data "h")]).
Proof.
  split; [reflexivity|].
  destruct (copyArtifactByName_copies Sample.new_host "svc" _ Sample.unified_world eq_refl)
    as (w' & Hrun & Hdeploy & Hbuild & _).
  by exists w'.
Defined.

Lemma copyArtifactByName_idempotent_witness :
  ∃ w1, PackageModules.copyArtifactByName Sample.new_host "svc" Sample.unified_world
        = (Return tt, w1)
      ∧ PackageModules.copyArtifactByName Sample.new_host "svc" w1 = (Return tt, w1).
Proof.
  eexists. split; [reflexivity|].
  by apply (copyArtifactByName_idempotent Sample.new_host "svc" Sample.unified_world).
Defined.

(** ** The distribution, whatever its outcome *)

Section DistributionFacts.
Import PackageModules Spec.
Variable this : Plugin.

Lemma copy_each_footprint names : ∀ w,
  let w' := (forEach names (copyArtifactByName this) w).2 in
  w_service w' = w_service w
  ∧ (∀ p, p ∉ deploy_path this <$> names → Fs.lookup (w_fs w') p = Fs.lookup (w_fs w) p)
  ∧ (∀ p, is_Some (Fs.lookup (w_fs w) p) → is_Some (Fs.lookup (w_fs w') p)).
Proof.
  induction names as [|n names IH]; intros w; cbn [forEach]; [done|].
  unfold bind. rewrite copyArtifactByName_run.
  destruct (Fs.lookup (w_fs w) (build_path this n)) as [c|]; [|done].
  match goal with |- context [forEach names _ ?w1] => destruct (IH w1) as (Hs & Hf & Hk) end.
  cbn [w_fs w_service] in *.
  destruct (forEach names _ _) as [r w']. cbn [snd] in *.
  split; [done|]. split.
  - intros p Hp. rewrite fmap_cons, not_elem_of_cons in Hp. destruct Hp as [Hp1 Hp2].
    rewrite Hf by done. rewrite lookup_write. by rewrite bool_decide_eq_false_2.
  - intros p Hp. by apply Hk, lookup_write_is_Some.
Qed.

Lemma assign_any serviceName ind n w :
  let w' := (assign this serviceName ind n w).2 in
  w_fs w' = w_fs w
  ∧ service_name (w_service w') = service_name (w_service w)
  ∧ service_package (w_service w') = service_package (w_service w)
  ∧ ∀ m, m ≠ n → service_functions (w_service w') !! m = service_functions (w_service w) !! m.
Proof.
  destruct (service_functions (w_service w) !! n) as [f|] eqn:Hf.
  - rewrite (assign_run this _ _ _ f) by done. rewrite setArtifactPath_run. cbn.
    repeat split. intros m Hm. by rewrite lookup_alter_ne.
  - unfold assign, getFunction, bind, get_service. by rewrite Hf.
Qed.

Lemma assign_each_footprint serviceName ind names : ∀ w,
  let w' := (forEach names (assign this serviceName ind) w).2 in
  w_fs w' = w_fs w
  ∧ service_name (w_service w') = service_name (w_service w)
  ∧ service_package (w_service w') = service_package (w_service w)
  ∧ ∀ m, m ∉ names → service_functions (w_service w') !! m = service_functions (w_service w) !! m.
Proof.
  induction names as [|n names IH]; intros w; cbn [forEach]; [done|].
  unfold bind. destruct (assign_any serviceName ind n w) as (Hfs & Hn & Hp & Hm).
  destruct (assign this serviceName ind n w) as [[[]|e] w1]; cbn [snd] in *.
  - destruct (IH w1) as (Hfs' & Hn' & Hp' & Hm').
    destruct (forEach names _ w1) as [r w']. cbn [snd] in *.
    rewrite Hfs', Hn', Hp'. repeat split; try done.
    intros m [Hm1 Hm2]%not_elem_of_cons. by rewrite Hm', Hm.
  - repeat split; try done. intros m [Hm1 _]%not_elem_of_cons. by apply Hm.
Qed.

Lemma copyExistingArtifacts_passes w :
  copyExistingArtifacts this w
  = (copy_pass this (functionNames this) (service_name (w_service w))
       (individually_of (w_service w)) >>
     forEach (functionNames this)
       (assign this (service_name (w_service w)) (individually_of (w_service w))) >>
     when (negb (truthy (individually_of (w_service w))) && providerIsGoogle this)
       (setServiceArtifactPath (deploy_path this (service_name (w_service w)))))
      (mkWorld (w_fs w) (w_unreadable w) (w_service w) (w_out w ++ copying_messages this)).
Proof.
  unfold copyExistingArtifacts.
  erewrite bind_Return by apply copying_messages_run.
  erewrite bind_Return by reflexivity.
  erewrite bind_Return by reflexivity. reflexivity.
Qed.

Lemma copy_pass_footprint w :
  let w' := (copy_pass this (functionNames this) (service_name (w_service w))
               (individually_of (w_service w)) w).2 in
  w_service w' = w_service w
  ∧ (∀ p, p ∉ deploy_path this <$> identities this w →
       Fs.lookup (w_fs w') p = Fs.lookup (w_fs w) p)
  ∧ (∀ p, is_Some (Fs.lookup (w_fs w) p) → is_Some (Fs.lookup (w_fs w') p)).
Proof.
  unfold copy_pass, identities, individually.
  destruct (truthy (individually_of (w_service w))).
  - apply copy_each_footprint.
  - rewrite copyArtifactByName_run.
    destruct (Fs.lookup (w_fs w) _) as [c|]; [|done]. cbn.
    split; [done|]. split.
    + intros p Hp. rewrite lookup_write. rewrite bool_decide_eq_false_2; [done|].
      intros <-. apply Hp. set_solver.
    + intros p Hp. by apply lookup_write_is_Some.
Qed.

(** X7: the footprint of the distribution, whether it completes or fails:
    [copyExistingArtifacts] removes no file, writes no path other than the
    deploy-stage paths of the archive identities of the run, changes the
    record of no function outside the names it processes, and keeps the
    name of the service. *)
Theorem copyExistingArtifacts_footprint w :
  let w' := (copyExistingArtifacts this w).2 in
  (∀ p, is_Some (Fs.lookup (w_fs w) p) → is_Some (Fs.lookup (w_fs w') p))
  ∧ (∀ p, p ∉ deploy_path this <$> identities this w →
       Fs.lookup (w_fs w') p = Fs.lookup (w_fs w) p)
  ∧ (∀ n, n ∉ functionNames this →
       service_functions (w_service w') !! n = service_functions (w_service w) !! n)
  ∧ service_name (w_service w') = service_name (w_service w).
Proof.
  cbv zeta. rewrite copyExistingArtifacts_passes.
  set (wl := mkWorld (w_fs w) (w_unreadable w) (w_service w) (w_out w ++ copying_messages this)).
  destruct (copy_pass_footprint wl) as (Hs1 & Hf1 & Hk1). cbn [wl w_fs w_service] in *.
  change (identities this wl) with (identities this w) in Hf1.
  destruct (copy_pass this _ _ _ wl) as [[[]|e] w1] eqn:Hcopy; cbn [snd] in *.
  2: { erewrite bind_Throw by exact Hcopy. cbn [snd]. by rewrite Hs1. }
  erewrite bind_Return by exact Hcopy.
  destruct (assign_each_footprint (service_name (w_service w))
              (individually_of (w_service w)) (functionNames this) w1)
    as (Hfs2 & Hn2 & Hp2 & Hm2).
  destruct (forEach (functionNames this) _ w1) as [[[]|e] w2] eqn:Hassign; cbn [snd] in *.
  2: { erewrite bind_Throw by exact Hassign. cbn [snd].
       rewrite Hfs2, Hn2, Hs1. repeat split; try done.
       intros n Hn. by rewrite Hm2, Hs1. }
  erewrite bind_Return by exact Hassign.
  set (w3 := (when _ _ w2).2).
  assert (w_fs w3 = w_fs w2
          ∧ service_functions (w_service w3) = service_functions (w_service w2)
          ∧ service_name (w_service w3) = service_name (w_service w2))
    as (Hfs3 & Hfn3 & Hn3).
  { subst w3. by destruct (_ && _). }
  rewrite Hfs3, Hfn3, Hn3, Hfs2, Hn2, Hs1.
  repeat split; try done. intros n Hn. by rewrite Hm2, Hs1.
Qed.

End DistributionFacts.

Section PartialDistribution.
Import PackageModules Spec.
Variable this : Plugin.

Lemma copy_each_partial a rest pre : ∀ w,
  (∀ b, b ∈ pre → is_Some (Fs.lookup (w_fs w) (build_path this b))) →
  (∀ b, b ∈ pre → deploy_path this b ≠ build_path this a) →
  Fs.lookup (w_fs w) (build_path this a) = None →
  ∃ w', forEach (pre ++ a :: rest) (copyArtifactByName this) w
        = (Throw (FsError "ENOENT" (build_path this a)), w')
    ∧ w_service w' = w_service w
    ∧ (∀ p, is_Some (Fs.lookup (w_fs w) p) → is_Some (Fs.lookup (w_fs w') p))
    ∧ ∀ b, b ∈ pre → is_Some (Fs.lookup (w_fs w') (deploy_path this b)).
Proof.
  induction pre as [|b pre IH]; intros w Hpre Hapart Hmiss.
  - exists w. cbn [app forEach]. split.
    { erewrite bind_Throw; [reflexivity|]. by rewrite copyArtifactByName_run, Hmiss. }
    split; [done|]. split; [done|]. intros b Hb. by apply elem_of_nil in Hb.
  - destruct (Hpre b) as [c Hc]; [set_solver|].
    change ((b :: pre) ++ a :: rest) with (b :: (pre ++ a :: rest)). cbn [forEach].
    erewrite bind_Return by (rewrite copyArtifactByName_run, Hc; reflexivity).
    match goal with |- context [forEach _ _ ?w1] =>
      destruct (IH w1) as (w' & Hrun & Hsv & Hkeep & Hdone) end.
    + intros b' Hb'. cbn [w_fs]. apply lookup_write_is_Some, Hpre. set_solver.
    + intros b' Hb'. apply Hapart. set_solver.
    + cbn [w_fs]. rewrite lookup_write.
      rewrite bool_decide_eq_false_2 by (apply Hapart; set_solver). exact Hmiss.
    + exists w'. split; [exact Hrun|]. split; [exact Hsv|]. split.
      * intros p Hp. apply Hkeep. cbn [w_fs]. by apply lookup_write_is_Some.
      * intros b' [->|Hb']%elem_of_cons; [|by apply Hdone].
        apply Hkeep. cbn [w_fs]. rewrite lookup_write.
        rewrite bool_decide_eq_true_2 by done. eauto.
Qed.

(** X8: the distribution is not undone when it fails: when the build-stage
    archive of an identity is missing, the run fails with the error of the
    copy naming that archive, before any function is assigned; the
    archives of the identities before it have been copied and stay at
    their deploy-stage paths, and no file that was there is removed. *)
Theorem copy_failure_is_partial w pre a rest :
  identities this w = pre ++ a :: rest →
  (∀ b, b ∈ pre → is_Some (Fs.lookup (w_fs w) (build_path this b))) →
  (∀ b, b ∈ pre → deploy_path this b ≠ build_path this a) →
  Fs.lookup (w_fs w) (build_path this a) = None →
  ∃ w', copyExistingArtifacts this w = (Throw (FsError "ENOENT" (build_path this a)), w')
    ∧ w_service w' = w_service w
    ∧ (∀ p, is_Some (Fs.lookup (w_fs w) p) → is_Some (Fs.lookup (w_fs w') p))
    ∧ ∀ b, b ∈ pre → is_Some (Fs.lookup (w_fs w') (deploy_path this b)).
Proof.
  intros Hids Hpre Hapart Hmiss. rewrite copyExistingArtifacts_passes.
  set (wl := mkWorld _ _ _ _).
  destruct (copy_each_partial a rest pre wl Hpre Hapart Hmiss)
    as (w' & Hrun & Hsv & Hkeep & Hdone).
  exists w'. split; [|done].
  erewrite bind_Throw; [reflexivity|].
  unfold copy_pass. unfold identities, individually in Hids.
  destruct (truthy (individually_of (w_service w))).
  - by rewrite Hids.
  - destruct pre as [|b pre].
    + injection Hids as -> <-. cbn [app forEach] in Hrun. unfold bind in Hrun.
      destruct (copyArtifactByName this a wl) as [[[]|e] w1]; [discriminate Hrun|].
      exact Hrun.
    + injection Hids as _ Hnil. by destruct pre.
Qed.
End PartialDistribution.

Lemma copy_failure_is_partial_witness :
  let w := mkWorld [(".webpack/f1.zip", Zip true [("f1.js", Data "1")])] ∅
             Sample.individual_service [] in
  ∃ w', PackageModules.copyExistingArtifacts Sample.new_host w
        = (Throw (FsError "ENOENT" ".webpack/f2.zip"), w')
    ∧ w_service w' = Sample.individual_service
    ∧ is_Some (Fs.lookup (w_fs w') ".serverless/f1.zip").
Proof.
  intros w.
  destruct (copy_failure_is_partial Sample.new_host w ["f1"] "f2" [])
    as (w' & Hrun & Hsv & _ & Hdone).
  - reflexivity.
  - intros b Hb. members Hb. vm_compute. eauto.
  - intros b Hb. members Hb. by vm_compute.
  - reflexivity.
  - exists w'. split; [exact Hrun|]. split; [exact Hsv|].
    apply (Hdone "f1"). set_solver.
Defined.


(** ** A completed distribution, exactly *)

Section DistributionExact.
Import PackageModules Spec.
Variable this : Plugin.

(** The disk after the archives [src] of the identities [names] are
    copied, one after the other, to their deploy-stage paths. *)
Local Abbreviation copied src names fs :=
  (foldl (λ acc n, Fs.write (deploy_path this n) (src n) acc) fs names).
Local Abbreviation overwritten src p names o :=
  (foldl (λ acc n, if bool_decide (deploy_path this n = p) then Some (src n) else acc) o names).

Lemma lookup_copied (src : string → content) names p : ∀ fs,
  Fs.lookup (copied src names fs) p = overwritten src p names (Fs.lookup fs p).
Proof.
  induction names as [|n names IH]; intros fs; cbn [foldl]; [done|].
  by rewrite IH, lookup_write.
Qed.

Lemma overwritten_absent (src : string → content) names p o :
  (∀ n, n ∈ names → deploy_path this n ≠ p) → overwritten src p names o = o.
Proof.
  revert o. induction names as [|n names IH]; intros o Hp; cbn [foldl]; [done|].
  rewrite bool_decide_eq_false_2 by (apply Hp; set_solver).
  apply IH. intros m Hm. apply Hp. set_solver.
Qed.

Lemma overwritten_present (src : string → content) names p o o' :
  (∃ n, n ∈ names ∧ deploy_path this n = p) →
  overwritten src p names o = overwritten src p names o'.
Proof.
  revert o o'. induction names as [|n names IH]; intros o o' (m & Hm & Hp); cbn [foldl].
  - by apply elem_of_nil in Hm.
  - destruct (decide (deploy_path this n = p)) as [Hn|Hn].
    + by rewrite !bool_decide_eq_true_2.
    + rewrite !bool_decide_eq_false_2 by done. apply IH.
      exists m. split; [|done]. apply elem_of_cons in Hm as [->|Hm]; [done|exact Hm].
Qed.

Lemma overwritten_same (src : string → content) names p v :
  (∀ m, m ∈ names → deploy_path this m = p → src m = v) →
  overwritten src p names (Some v) = Some v.
Proof.
  induction names as [|n names IH]; intros Hv; cbn [foldl]; [done|].
  assert (overwritten src p names (Some v) = Some v) as IH'.
  { apply IH. intros m Hm. apply Hv. set_solver. }
  case_bool_decide as Hn; [|exact IH'].
  rewrite (Hv n) by (done || set_solver). exact IH'.
Qed.

Lemma overwritten_value (src : string → content) names p n : ∀ o,
  n ∈ names → deploy_path this n = p →
  (∀ m, m ∈ names → deploy_path this m = p → src m = src n) →
  overwritten src p names o = Some (src n).
Proof.
  induction names as [|x names IH]; intros o Hn Hp Hv; [by apply elem_of_nil in Hn|].
  cbn [foldl]. destruct (decide (n ∈ names)) as [Hin|Hout].
  - apply IH; [done..|]. intros m Hm. apply Hv. set_solver.
  - assert (x = n) as -> by set_solver.
    rewrite bool_decide_eq_true_2 by done.
    apply overwritten_same. intros m Hm. apply Hv. set_solver.
Qed.

(** The copy loop when no deploy-stage path is also a build-stage path: the
    archives are read as they were at the start. *)
Lemma copy_each_exact (src : string → content) names : ∀ w,
  (∀ n, n ∈ names → Fs.lookup (w_fs w) (build_path this n) = Some (src n)) →
  (∀ a b, a ∈ names → b ∈ names → deploy_path this a ≠ build_path this b) →
  forEach names (copyArtifactByName this) w
  = (Return tt, set_fs (copied src names (w_fs w)) w).
Proof.
  induction names as [|n names IH]; intros w Hsrc Hdisj; cbn [forEach foldl].
  - unfold ret. by rewrite set_fs_id.
  - erewrite bind_Return
      by (rewrite copyArtifactByName_run, (Hsrc n) by set_solver; reflexivity).
    rewrite IH; [done|..].
    + intros m Hm. cbn [w_fs]. rewrite lookup_write.
      rewrite bool_decide_eq_false_2 by (apply Hdisj; set_solver).
      apply Hsrc. set_solver.
    + intros a b Ha Hb. apply Hdisj; set_solver.
Qed.

Lemma copy_pass_exact (src : string → content) w wl :
  w_fs wl = w_fs w → w_service wl = w_service w →
  (∀ a, a ∈ identities this w → Fs.lookup (w_fs w) (build_path this a) = Some (src a)) →
  (∀ a b, a ∈ identities this w → b ∈ identities this w →
     deploy_path this a ≠ build_path this b) →
  copy_pass this (functionNames this) (service_name (w_service w))
    (individually_of (w_service w)) wl
  = (Return tt, set_fs (copied src (identities this w) (w_fs w)) wl).
Proof.
  intros Hfs Hsv Hsrc Hdisj. unfold copy_pass, identities, individually in *.
  destruct (truthy (individually_of (w_service w))).
  - rewrite (copy_each_exact src), Hfs; [done|by rewrite Hfs|done].
  - rewrite copyArtifactByName_run, Hfs, (Hsrc _) by set_solver. done.
Qed.

(** The assignment loop, record by record. *)
Lemma assign_each_exact serviceName ind names : ∀ w,
  (∀ n, n ∈ names → is_Some (service_functions (w_service w) !! n)) →
  ∃ w', forEach names (assign this serviceName ind) w = (Return tt, w')
    ∧ w_fs w' = w_fs w
    ∧ service_name (w_service w') = service_name (w_service w)
    ∧ service_package (w_service w') = service_package (w_service w)
    ∧ ∀ n, service_functions (w_service w') !! n
           = if decide (n ∈ names)
             then assigned this (deploy_path this (if truthy ind then n else serviceName))
                  <$> service_functions (w_service w) !! n
             else service_functions (w_service w) !! n.
Proof.
  induction names as [|n names IH]; intros w Hfun; cbn [forEach].
  - exists w. do 4 (split; [done|]). intros n. by rewrite decide_False by set_solver.
  - destruct (Hfun n) as [f Hf]; [set_solver|].
    erewrite bind_Return
      by (rewrite (assign_run this _ _ _ f), setArtifactPath_run by done; reflexivity).
    match goal with |- context [forEach _ _ ?w1] => set (w1' := w1) end.
    destruct (IH w1') as (w' & Hrun & Hfs & Hname & Hpkg & Hlook).
    { intros m Hm. subst w1'. cbn. rewrite lookup_alter_is_Some. apply Hfun. set_solver. }
    exists w'. split; [exact Hrun|]. split; [by rewrite Hfs|].
    split; [by rewrite Hname|]. split; [by rewrite Hpkg|].
    intros m. rewrite Hlook. subst w1'. cbn [w_service service_functions].
    destruct (decide (m = n)) as [->|Hmn].
    + rewrite lookup_alter_eq, Hf. rewrite (decide_True (P := n ∈ n :: names)) by set_solver.
      case_decide; cbn; [|done]. by rewrite assigned_overwrites.
    + rewrite lookup_alter_ne by done.
      destruct (decide (m ∈ names)).
      * by rewrite (decide_True (P := m ∈ n :: names)) by set_solver.
      * by rewrite (decide_False (P := m ∈ n :: names)) by set_solver.
Qed.

(** A completed distribution: the disk, the function records and the
    service fields it leaves. *)
Lemma copyExistingArtifacts_exact (src : string → content) w :
  (∀ a, a ∈ identities this w → Fs.lookup (w_fs w) (build_path this a) = Some (src a)) →
  (∀ n, n ∈ functionNames this → is_Some (service_functions (w_service w) !! n)) →
  (∀ a b, a ∈ identities this w → b ∈ identities this w →
     deploy_path this a ≠ build_path this b) →
  ∃ w', copyExistingArtifacts this w = (Return tt, w')
    ∧ w_fs w' = copied src (identities this w) (w_fs w)
    ∧ service_name (w_service w') = service_name (w_service w)
    ∧ service_package (w_service w')
      = (if negb (individually w) && providerIsGoogle this
         then Some (<["artifact" := JStr (deploy_path this (service_name (w_service w)))]>
                      (default ∅ (service_package (w_service w))))
         else service_package (w_service w))
    ∧ ∀ n, service_functions (w_service w') !! n
           = if decide (n ∈ functionNames this)
             then assigned this (deploy_path this (identity w n))
                  <$> service_functions (w_service w) !! n
             else service_functions (w_service w) !! n.
Proof.
  intros Hsrc Hfun Hdisj. rewrite copyExistingArtifacts_passes.
  erewrite bind_Return by (by apply (copy_pass_exact src w)).
  edestruct (assign_each_exact (service_name (w_service w))
               (individually_of (w_service w)) (functionNames this))
    as (w2 & Hassign & Hfs & Hname & Hpkg & Hlook); [|erewrite bind_Return by exact Hassign].
  { exact Hfun. }
  cbn [set_fs w_fs w_service] in Hfs, Hname, Hpkg, Hlook.
  unfold individually, identity.
  destruct (negb (truthy (individually_of (w_service w))) && providerIsGoogle this).
  - eexists. split; [reflexivity|]. cbn. by rewrite Hfs, Hname, Hpkg.
  - exists w2. by rewrite Hfs, Hname, Hpkg.
Qed.
End DistributionExact.

Section DistributionRoundTrip.
Import PackageModules Spec.
Variable this : Plugin.

Lemma service_eq (s1 s2 : Service) :
  service_name s1 = service_name s2 →
  service_functions s1 = service_functions s2 →
  service_package s1 = service_package s2 → s1 = s2.
Proof. destruct s1, s2; cbn; by intros -> -> ->. Qed.

(** X10: where every archive is in the build stage, every function to
    process is known and no deploy-stage path is also a build-stage path,
    the distribution completes; the build-stage archives are still in place,
    and the deploy-stage path of an identity holds that identity's
    build-stage archive, as long as the identities sharing that path have
    the same archive. *)
Theorem copyExistingArtifacts_delivers w :
  (∀ a, a ∈ identities this w → is_Some (Fs.lookup (w_fs w) (build_path this a))) →
  (∀ n, n ∈ functionNames this → is_Some (service_functions (w_service w) !! n)) →
  (∀ a b, a ∈ identities this w → b ∈ identities this w →
     deploy_path this a ≠ build_path this b) →
  ∃ w', copyExistingArtifacts this w = (Return tt, w')
    ∧ (∀ a, a ∈ identities this w →
         Fs.lookup (w_fs w') (build_path this a) = Fs.lookup (w_fs w) (build_path this a))
    ∧ (∀ a, a ∈ identities this w →
         (∀ b, b ∈ identities this w → deploy_path this b = deploy_path this a →
            Fs.lookup (w_fs w) (build_path this b) = Fs.lookup (w_fs w) (build_path this a)) →
         Fs.lookup (w_fs w') (deploy_path this a) = Fs.lookup (w_fs w) (build_path this a)).
Proof.
  intros Hsrc Hfun Hdisj.
  set (src := λ n, default (Data "") (Fs.lookup (w_fs w) (build_path this n))).
  assert (∀ a, a ∈ identities this w →
            Fs.lookup (w_fs w) (build_path this a) = Some (src a)) as Hsrc'.
  { intros a Ha. unfold src. by destruct (Hsrc a Ha) as [c ->]. }
  destruct (copyExistingArtifacts_exact this src w Hsrc' Hfun Hdisj)
    as (w' & Hrun & Hfs & _).
  exists w'. split; [exact Hrun|]. split.
  - intros a Ha. rewrite Hfs, lookup_copied, overwritten_absent; [done|].
    intros n Hn. by apply Hdisj.
  - intros a Ha Hsame. rewrite Hfs, lookup_copied, (Hsrc' a Ha).
    apply overwritten_value; [done..|].
    intros b Hb Hp. specialize (Hsame b Hb Hp).
    rewrite (Hsrc' a Ha), (Hsrc' b Hb) in Hsame. congruence.
Qed.

(** X11: under the same conditions the distribution is idempotent: run
    again on the state it left, it completes and leaves the service and the
    content of every path as they were. *)
Theorem copyExistingArtifacts_idempotent w :
  (∀ a, a ∈ identities this w → is_Some (Fs.lookup (w_fs w) (build_path this a))) →
  (∀ n, n ∈ functionNames this → is_Some (service_functions (w_service w) !! n)) →
  (∀ a b, a ∈ identities this w → b ∈ identities this w →
     deploy_path this a ≠ build_path this b) →
  ∃ w1 w2, copyExistingArtifacts this w = (Return tt, w1)
    ∧ copyExistingArtifacts this w1 = (Return tt, w2)
    ∧ w_service w2 = w_service w1
    ∧ ∀ p, Fs.lookup (w_fs w2) p = Fs.lookup (w_fs w1) p.
Proof.
  intros Hsrc Hfun Hdisj.
  set (src := λ n, default (Data "") (Fs.lookup (w_fs w) (build_path this n))).
  assert (∀ a, a ∈ identities this w →
            Fs.lookup (w_fs w) (build_path this a) = Some (src a)) as Hsrc'.
  { intros a Ha. unfold src. by destruct (Hsrc a Ha) as [c ->]. }
  destruct (copyExistingArtifacts_exact this src w Hsrc' Hfun Hdisj)
    as (w1 & Hrun1 & Hfs1 & Hname1 & Hpkg1 & Hfun1).
  assert (individually w1 = individually w) as Hind.
  { unfold individually at 1 2. unfold individually_of. rewrite Hpkg1.
    destruct (negb _ && _); [|done]. cbn. rewrite lookup_insert_ne by done.
    destruct (service_package (w_service w)); cbn; [done|]. by rewrite lookup_empty. }
  assert (identities this w1 = identities this w) as Hids.
  { unfold identities. by rewrite Hind, Hname1. }
  destruct (copyExistingArtifacts_exact this src w1)
    as (w2 & Hrun2 & Hfs2 & Hname2 & Hpkg2 & Hfun2).
  { rewrite Hids. intros a Ha.
    rewrite Hfs1, lookup_copied, overwritten_absent; [by apply Hsrc'|].
    intros n Hn. by apply Hdisj. }
  { intros n Hn. rewrite Hfun1, decide_True by done.
    apply fmap_is_Some. by apply Hfun. }
  { by rewrite Hids. }
  exists w1, w2. split; [exact Hrun1|]. split; [exact Hrun2|]. split.
  - apply service_eq; [exact Hname2| |].
    + apply map_eq. intros n. rewrite Hfun2. case_decide as Hn; [|done].
      rewrite Hfun1, decide_True by done.
      destruct (service_functions (w_service w) !! n); [|done].
      cbn [fmap option_fmap option_map]. rewrite assigned_overwrites.
      unfold identity. by rewrite Hind, Hname1.
    + rewrite Hpkg2, Hind, Hname1. destruct (negb _ && _); [|done].
      rewrite Hpkg1. cbn. by rewrite insert_insert_eq.
  - intros p. rewrite Hfs2, Hids, lookup_copied.
    destruct (decide (p ∈ deploy_path this <$> identities this w)) as [Hin|Hout].
    + apply list_elem_of_fmap in Hin as (n & -> & Hn).
      rewrite Hfs1, lookup_copied. apply overwritten_present. by exists n.
    + apply overwritten_absent. intros n Hn <-. apply Hout.
      apply list_elem_of_fmap. by exists n.
Qed.
End DistributionRoundTrip.

Lemma copyExistingArtifacts_delivers_witness :
  ∃ w', PackageModules.copyExistingArtifacts Sample.new_host Sample.individual_world
        = (Return tt, w')
    ∧ Fs.lookup (w_fs w') ".webpack/f1.zip" = Some (Zip true [("f1.js", Data "1")])
    ∧ Fs.lookup (w_fs w') ".serverless/f2.zip" = Some (Zip true [("f2.js", Data "2")]).
Proof.
  destruct (copyExistingArtifacts_delivers Sample.new_host Sample.individual_world)
    as (w' & Hrun & Hbuild & Hdeploy).
  - intros a Ha. vm_compute in Ha. members Ha; vm_compute; eauto.
  - intros n Hn. vm_compute in Hn. members Hn; vm_compute; eauto.
  - intros a b Ha Hb. vm_compute in Ha, Hb. members Ha; members Hb; by vm_compute.
  - exists w'. split; [exact Hrun|]. split.
    + apply (Hbuild "f1"). vm_compute. set_solver.
    + apply (Hdeploy "f2"); [vm_compute; set_solver|].
      intros b Hb. vm_compute in Hb. members Hb; by vm_compute.
Defined.

Lemma copyExistingArtifacts_idempotent_witness :
  ∃ w1 w2,
    PackageModules.copyExistingArtifacts Sample.google Sample.unified_world = (Return tt, w1)
    ∧ PackageModules.copyExistingArtifacts Sample.google w1 = (Return tt, w2)
    ∧ w_service w2 = w_service w1
    ∧ ∀ p, Fs.lookup (w_fs w2) p = Fs.lookup (w_fs w1) p.
Proof.
  apply (copyExistingArtifacts_idempotent Sample.google Sample.unified_world).
  - intros a Ha. vm_compute in Ha. members Ha; vm_compute; eauto.
  - intros n Hn. vm_compute in Hn. members Hn; vm_compute; eauto.
  - intros a b Ha Hb. vm_compute in Ha, Hb. members Ha; members Hb; by vm_compute.
Defined.

(** ** The listing and the archive, further *)

Section ListingFacts.
Import PackageModules Spec.
Variable this : Plugin.

Lemma length_filter_split {A} (f : A → bool) (l : list A) :
  length (filter (λ x, f x = false) l) + length (filter (λ x, f x = true) l) = length l.
Proof.
  induction l as [|a l IH]; [done|]. destruct (f a) eqn:Hf.
  - rewrite filter_cons_False, filter_cons_True by congruence. cbn. lia.
  - rewrite filter_cons_True, filter_cons_False by congruence. cbn. lia.
Qed.

(** X12: the exclusion loop of [zip], which removes elements from the array
    it iterates over and steps its index back, visits every file once: for
    any list of files it ends, keeps exactly the files the pattern does not
    match, in their order, counts the others, so that kept and counted add
    up to the files listed, and leaves the service and the messages alone. *)
Theorem exclude_loop_is_filter matches directory files w :
  ∃ kept n w',
    exclude_loop (length files) matches directory 0 files 0 w = (Return (kept, n), w')
    ∧ kept = filter (λ r, matches r = false) files
    ∧ n = length (filter (λ r, matches r = true) files)
    ∧ length kept + n = length files
    ∧ w_service w' = w_service w ∧ w_out w' = w_out w.
Proof.
  do 3 eexists. split; [apply exclude_loop_run; lia|].
  cbn [take drop app Nat.add]. split; [done|]. split; [done|].
  split; [apply length_filter_split|done].
Qed.



End ListingFacts.


Section ArchiveFacts.
Import PackageModules Spec.
Variable this : Plugin.

Lemma stream_write_any path e w :
  stream_write path e w
  = (Return tt,
     set_fs (match Fs.lookup (w_fs w) path with
             | Some (Zip b es) => Fs.write path (Zip b (es ++ [e])) (w_fs w)
             | _ => w_fs w
             end) w).
Proof.
  cbv [stream_write bind get_fs put_fs ret set_fs].
  destruct (Fs.lookup (w_fs w) path) as [[|]|]; by destruct w.
Qed.

Lemma stream_close_any path w :
  stream_close path w
  = (Return tt,
     set_fs (match Fs.lookup (w_fs w) path with
             | Some (Zip _ es) => Fs.write path (Zip true es) (w_fs w)
             | _ => w_fs w
             end) w).
Proof.
  cbv [stream_close bind get_fs put_fs ret set_fs].
  destruct (Fs.lookup (w_fs w) path) as [[|]|]; by destruct w.
Qed.

Lemma append_entries_cons artifact total processed path name c todo w :
  ∃ out,
    append_entries artifact total processed ((path, name, c) :: todo) w
    = if bool_decide (path ∈ w_unreadable w) then (Throw (ArchiverError path), w)
      else append_entries artifact total (S processed) todo
             (mkWorld (match Fs.lookup (w_fs w) artifact with
                       | Some (Zip b es) =>
                           Fs.write artifact (Zip b (es ++ [(name, c)])) (w_fs w)
                       | _ => w_fs w
                       end) (w_unreadable w) (w_service w) out).
Proof.
  cbn [append_entries]. erewrite bind_Return by reflexivity.
  case_bool_decide; [by exists []|].
  erewrite bind_Return by apply stream_write_any.
  match goal with |- context [set_fs ?fs1 w] =>
    destruct (progress_run total (S processed) (set_fs fs1 w)) as [out Hp] end.
  exists out. erewrite bind_Return by exact Hp. done.
Qed.

(** The counters of the progress report bear on the messages only. *)
Lemma append_entries_counters artifact todo : ∀ t1 p1 t2 p2 w1 w2,
  w_fs w1 = w_fs w2 → w_unreadable w1 = w_unreadable w2 →
  (append_entries artifact t1 p1 todo w1).1 = (append_entries artifact t2 p2 todo w2).1
  ∧ w_fs (append_entries artifact t1 p1 todo w1).2
    = w_fs (append_entries artifact t2 p2 todo w2).2.
Proof.
  induction todo as [|[[path name] c] todo IH]; intros t1 p1 t2 p2 w1 w2 Hfs Hun; [done|].
  destruct (append_entries_cons artifact t1 p1 path name c todo w1) as [out1 ->].
  destruct (append_entries_cons artifact t2 p2 path name c todo w2) as [out2 ->].
  rewrite Hun. case_bool_decide; [done|].
  apply IH; cbn [w_fs w_unreadable]; [by rewrite Hfs|done].
Qed.

(** X14: the archive is built from a walk of the directory; the file list
    [zip] hands over supplies the total of the progress report and nothing
    else: with any other list the build ends the same way and leaves the
    same files. *)
Theorem serverlessZip_ignores_file_list artifact directory files files' w :
  (serverlessZip this artifact directory files w).1
  = (serverlessZip this artifact directory files' w).1
  ∧ w_fs (serverlessZip this artifact directory files w).2
    = w_fs (serverlessZip this artifact directory files' w).2.
Proof.
  unfold serverlessZip.
  assert (∀ w0, get_fs w0 = (Return (w_fs w0), w0)) as Hget by done.
  rewrite !(bind_Return (createWriteStream artifact) _ w _ _
              (createWriteStream_run artifact w)). cbv zeta.
  rewrite !(bind_Return get_fs _ _ _ _ (Hget _)).
  set (w0 := set_fs _ w). set (todo := Fs.walk directory (w_fs w0)).
  destruct (append_entries_counters artifact todo (length files) 0 (length files') 0 w0 w0)
    as [Hres Hfs]; [done..|].
  destruct (append_entries artifact (length files) 0 todo w0) as [[[]|e1] w1] eqn:H1;
    destruct (append_entries artifact (length files') 0 todo w0) as [[[]|e2] w2] eqn:H2;
    cbn [fst snd] in Hres, Hfs; try discriminate Hres.
  - rewrite (bind_Return _ _ _ _ _ H1), (bind_Return _ _ _ _ _ H2).
    rewrite (bind_Return _ _ _ _ _ (stream_close_any artifact w1)).
    rewrite (bind_Return _ _ _ _ _ (stream_close_any artifact w2)).
    unfold ret. cbn [fst snd w_fs set_fs]. by rewrite Hfs.
  - rewrite (bind_Throw _ _ _ _ _ H1), (bind_Throw _ _ _ _ _ H2).
    injection Hres as ->. cbn [fst snd]. done.
Qed.

(** X15: whatever its outcome, [zip] creates and changes no file other than
    the archive: a file found afterwards at another path was there before,
    with the same content. *)
Theorem zip_footprint directory zipFileName w q c :
  q ≠ artifact_path this zipFileName →
  Fs.lookup (w_fs (zip this directory zipFileName w).2) q = Some c →
  Fs.lookup (w_fs w) q = Some c.
Proof.
  intros Hq. unfold zip.
  erewrite bind_Return by apply listFiles_run.
  case_bool_decide as Hempty.
  - cbn [throw snd w_fs]. apply lookup_delete_all.
  - erewrite bind_Return by reflexivity. fold (artifact_path this zipFileName).
    match goal with |- context [serverlessZip _ _ _ ?fl ?w1] =>
      destruct (serverlessZip_run this (artifact_path this zipFileName) directory fl w1)
        as (w' & es & Hframe & [(Hrun & _)|(p & Hrun & _)])
    end; rewrite Hrun; cbn [snd]; rewrite Hframe by done; apply lookup_delete_all.
Qed.

(** X16: the build and the distribution meet: the path a successful [zip]
    of the archive named by [getArtifactName] returns is the build-stage
    path of the same identity, it holds a finalised archive, and the copy of
    that identity then succeeds and puts the archive at the deploy-stage
    path. *)
Theorem zip_then_copy entryFunction directory w p w1 :
  (let* filename := getArtifactName entryFunction in zip this directory filename) w
  = (Return p, w1) →
  let a := match entryFunction with
           | Some funcName => if truthy (JStr funcName) then funcName
                              else service_name (w_service w)
           | None => service_name (w_service w)
           end in
  p = build_path this a
  ∧ ∃ es w2, Fs.lookup (w_fs w1) p = Some (Zip true es)
      ∧ copyArtifactByName this a w1 = (Return tt, w2)
      ∧ Fs.lookup (w_fs w2) (deploy_path this a) = Some (Zip true es).
Proof.
  intros Hrun a.
  erewrite bind_Return in Hrun by reflexivity. fold a in Hrun.
  unfold zip in Hrun. erewrite bind_Return in Hrun by apply listFiles_run.
  case_bool_decide as Hempty; [discriminate Hrun|].
  erewrite bind_Return in Hrun by reflexivity.
  change (Path.join [webpackOutputPath this; a +:+ ".zip"])
    with (build_path this a) in Hrun.
  match type of Hrun with serverlessZip _ _ _ ?fl ?w0 = _ =>
    destruct (serverlessZip_run this (build_path this a) directory fl w0)
      as (w' & es & _ & [(Hzip & Hl & _)|(path & Hzip & _)])
  end; rewrite Hzip in Hrun; [|discriminate Hrun].
  injection Hrun as <- <-. split; [done|].
  exists es. eexists. split; [exact Hl|].
  rewrite copyArtifactByName_run, Hl. split; [reflexivity|].
  cbn [w_fs]. rewrite lookup_write. by rewrite bool_decide_eq_true_2.
Qed.

(** X17: the service-level assignment keeps the packaging mode and the
    functions: [isIndividualPackaging] answers after it as before, also
    when the service had no [package] object, and the artifact it reads
    back is the one assigned last. *)
Theorem setServiceArtifactPath_keeps_mode artifactPath w :
  let w' := (setServiceArtifactPath artifactPath w).2 in
  (isIndividualPackaging w').1 = (isIndividualPackaging w).1
  ∧ service_binding w' = Some (JStr artifactPath)
  ∧ service_functions (w_service w') = service_functions (w_service w)
  ∧ service_name (w_service w') = service_name (w_service w)
  ∧ ∀ k, k ≠ "artifact" →
      service_package (w_service w') ≫= (.!! k) = service_package (w_service w) ≫= (.!! k).
Proof.
  cbv [setServiceArtifactPath isIndividualPackaging bind get_service put_service ret].
  cbn [fst snd w_service service_functions service_name service_package].
  unfold service_binding, individually_of.
  cbn [w_service service_package mbind option_bind].
  assert (∀ k, k ≠ "artifact" →
            (<["artifact" := JStr artifactPath]>
               (default ∅ (service_package (w_service w))) : jsrecord) !! k
            = service_package (w_service w) ≫= (.!! k)) as Hk.
  { intros k Hk. rewrite lookup_insert_ne by done.
    destruct (service_package (w_service w)); cbn; [done|apply lookup_empty]. }
  split; [f_equal; f_equal; by apply Hk|].
  split; [by rewrite lookup_insert_eq|]. split; [done|]. split; [done|exact Hk].
Qed.
End ArchiveFacts.

Lemma zip_footprint_witness :
  let w' := (PackageModules.zip Sample.excluding_maps ".webpack/service" "svc.zip"
               Sample.unreadable_world).2 in
  ".webpack/service/handler.js" ≠ Spec.artifact_path Sample.excluding_maps "svc.zip"
  ∧ Fs.lookup (w_fs w') ".webpack/service/handler.js" = Some (Data "exports.handler = ...")
  ∧ Fs.lookup (w_fs Sample.unreadable_world) ".webpack/service/handler.js"
    = Some (Data "exports.handler = ...").
Proof.
  intros w'. split; [done|]. split; [reflexivity|].
  apply (zip_footprint Sample.excluding_maps ".webpack/service" "svc.zip"
           Sample.unreadable_world); [done|reflexivity].
Defined.

Lemma zip_then_copy_witness :
  ∃ es w2,
    PackageModules.copyArtifactByName Sample.excluding_maps "svc"
      (PackageModules.zip Sample.excluding_maps ".webpack/service" "svc.zip"
         Sample.compiled_world).2 = (Return tt, w2)
    ∧ Fs.lookup (w_fs w2) ".serverless/svc.zip" = Some (Zip true es).
Proof.
  destruct (zip_then_copy Sample.excluding_maps None ".webpack/service"
              Sample.compiled_world ".webpack/svc.zip"
              (PackageModules.zip Sample.excluding_maps ".webpack/service" "svc.zip"
                 Sample.compiled_world).2 eq_refl)
    as (_ & es & w2 & _ & Hcopy & Hl).
  by exists es, w2.
Defined.

(** ** The two stages *)

Section Stages.
Import PackageModules Spec.
Variable this : Plugin.

Lemma split_first_segment x s :
  no_separator x = true → Path.split (x +:+ "/" +:+ s) = x :: Path.split s.
Proof.
  induction x as [|c x IH]; [done|]. cbn [no_separator].
  intros [Hc Hx]%andb_true_iff. apply negb_true_iff in Hc.
  change (String c x +:+ "/" +:+ s) with (String c (x +:+ "/" +:+ s)).
  cbn [Path.split]. by rewrite Hc, IH.
Qed.

Lemma first_segment_inj x y s t :
  no_separator x = true → no_separator y = true →
  x +:+ "/" +:+ s = y +:+ "/" +:+ t → x = y.
Proof.
  intros Hx Hy E. apply (f_equal Path.split) in E.
  rewrite !split_first_segment in E by done. by injection E.
Qed.

Lemma build_path_plain n :
  let out := webpackOutputPath this in
  no_separator out = true → out ≠ "" → out ≠ "." → out ≠ ".." →
  no_separator n = true → build_path this n = out +:+ "/" +:+ n +:+ ".zip".
Proof.
  intros out Hout Ho0 Ho1 Ho2 Hn.
  unfold build_path, getArtifactLocations. cbn [webpackArtifact]. fold out.
  assert (String.length (n +:+ ".zip") = String.length n + 4) as Hlen
    by apply length_app.
  assert (n +:+ ".zip" ≠ "") as H0 by (intros E; rewrite E in Hlen; cbn in Hlen; lia).
  assert (n +:+ ".zip" ≠ ".") as H1 by (intros E; rewrite E in Hlen; cbn in Hlen; lia).
  assert (n +:+ ".zip" ≠ "..") as H2 by (intros E; rewrite E in Hlen; cbn in Hlen; lia).
  unfold Path.join.
  rewrite filter_cons_True by done. rewrite filter_cons_True by done.
  rewrite filter_nil. cbn [Path.unsplit].
  assert (out +:+ "/" +:+ n +:+ ".zip" ≠ "") as Hne.
  { intros E. apply (f_equal String.length) in E. rewrite length_app in E.
    destruct out; [done|]. cbn in E. lia. }
  unfold Path.normalize. rewrite bool_decide_eq_false_2 by done.
  assert (Path.starts_with_slash (out +:+ "/" +:+ n +:+ ".zip") = false) as ->.
  { destruct out as [|c out']; [done|]. cbn [no_separator] in Hout.
    apply andb_true_iff in Hout as [Hc _]. by apply negb_true_iff in Hc. }
  assert (Path.ends_with_slash (out +:+ "/" +:+ n +:+ ".zip") = false) as ->.
  { change ("/" +:+ n +:+ ".zip") with (("/" +:+ n) +:+ ".zip").
    rewrite <- string_app_assoc. apply ends_with_slash_zip. }
  cbn [negb]. unfold Path.normalizeString.
  rewrite split_first_segment by done.
  rewrite split_no_separator by by apply no_separator_app.
  cbn [foldl]. rewrite !normalize_step_plain by done.
  change (Path.unsplit (reverse [n +:+ ".zip"; out])) with (out +:+ "/" +:+ n +:+ ".zip").
  by rewrite bool_decide_eq_false_2.
Qed.

(** X18: with an output directory of one plain segment other than
    [.serverless], and names that hold no path separator, the two stages
    are apart: the deploy-stage path of an identity is never the build-stage
    path of one, so that the copy overwrites no build-stage archive. *)
Theorem stages_disjoint a b :
  no_separator (webpackOutputPath this) = true →
  webpackOutputPath this ≠ "" → webpackOutputPath this ≠ "." →
  webpackOutputPath this ≠ ".." → webpackOutputPath this ≠ ".serverless" →
  no_separator a = true → no_separator b = true →
  deploy_path this a ≠ build_path this b.
Proof.
  intros Hout Ho0 Ho1 Ho2 Hos Ha Hb.
  rewrite (deploy_path_plain this) by done. rewrite build_path_plain by done.
  change (".serverless/" +:+ a +:+ ".zip") with (".serverless" +:+ "/" +:+ a +:+ ".zip").
  intros E. apply first_segment_inj in E; [congruence|done..].
Qed.
End Stages.

Lemma stages_disjoint_witness :
  Spec.deploy_path Sample.new_host "f1" ≠ Spec.build_path Sample.new_host "f1".
Proof. by apply stages_disjoint. Defined.
